(** * The computer opponent of the chess application

    A shallow embedding of the two move-selection engines of the repository,
    [src/lib/ai.ts] (module [Ai]) and [src/lib/chessAI.ts] (module [ChessAI]):
    the static evaluator [evaluateBoard], the alpha-beta search [minimax] and
    the driver [getBestMove].

    The rules engine ([chess.js]) is an external collaborator.  It is taken as
    an interface, [RulesEngine]; the [Chess] object both engines mutate is
    modelled as the current position together with the stack of positions
    that [undo] pops.  Code that calls [game.move] lives in a state-and-error
    monad: [None] stands for the exception [game.move] throws on a move that
    is not legal. *)

From Stdlib Require Import ZArith List String Bool Lia Permutation.
Import ListNotations.
Open Scope Z_scope.

(** ** Data of the rules engine *)

(** [Color] of chess.js: ['w'] and ['b']. *)
Inductive Color : Type := White | Black.

(** [PieceSymbol] of chess.js: ['p' | 'n' | 'b' | 'r' | 'q' | 'k']. *)
Inductive PieceSymbol : Type := Pawn | Knight | Bishop | Rook | Queen | King.

(** An occupied square of [game.board()]: [{ type, color }]. *)
Record Piece : Type := mkPiece { ptype : PieceSymbol; pcolor : Color }.

(** [game.board()]: rows from rank 8 (index 0) down to rank 1 (index 7), each
    row from file a (index 0) to file h; [None] is the [null] of an empty
    square. *)
Definition Board : Type := list (list (option Piece)).

(** Moves are the SAN strings [game.moves()] returns. *)
Definition Move : Type := string.

(** A JavaScript [number] as the engines use it for the search window: an
    integer, or one of the two infinities. Scores themselves are integers. *)
Inductive number : Type := NegInf | Fin (z : Z) | PosInf.

Definition color_eqb (a b : Color) : bool :=
  match a, b with
  | White, White | Black, Black => true
  | _, _ => false
  end.

(** [x <= y] on numbers. *)
Definition num_leb (x y : number) : bool :=
  match x, y with
  | NegInf, _ => true
  | _, PosInf => true
  | Fin a, Fin b => a <=? b
  | _, _ => false
  end.

(** [x < y] on numbers. *)
Definition num_ltb (x y : number) : bool :=
  match x, y with
  | PosInf, _ => false
  | _, NegInf => false
  | Fin a, Fin b => a <? b
  | _, _ => true
  end.

(** [Math.max(x, v)] and [Math.min(x, v)] for a window bound [x] and a score [v]. *)
Definition num_max (x : number) (v : Z) : number :=
  match x with
  | NegInf => Fin v
  | Fin a => Fin (Z.max a v)
  | PosInf => PosInf
  end.

Definition num_min (x : number) (v : Z) : number :=
  match x with
  | NegInf => NegInf
  | Fin a => Fin (Z.min a v)
  | PosInf => Fin v
  end.

(** The two comparisons as propositions. *)
Definition num_le (x y : number) : Prop :=
  match x, y with
  | NegInf, _ => True
  | _, PosInf => True
  | Fin a, Fin b => a <= b
  | _, _ => False
  end.

Definition num_lt (x y : number) : Prop :=
  match x, y with
  | PosInf, _ => False
  | _, NegInf => False
  | Fin a, Fin b => a < b
  | _, _ => True
  end.

(** [board[i][j]]; chess.js always hands out eight rows of eight squares, and
    both evaluators read indices 0..7 only. *)
Definition square (board : Board) (i j : nat) : option Piece :=
  nth j (nth i board []) None.

(** [x || 0] on the result of a table lookup: [undefined] becomes 0 and a
    number stays what it is (0 included). *)
Definition or_zero (x : option Z) : Z :=
  match x with
  | Some v => v
  | None => 0
  end.

(** The interface the engines consume from chess.js, on positions (what a FEN
    string encodes). *)
Class RulesEngine (Position : Type) : Type := {
  (** [game.moves()] *)
  legal_moves : Position -> list Move;
  (** the position [game.move(m)] leads to *)
  apply_move : Position -> Move -> Position;
  (** [game.isGameOver()] *)
  is_game_over : Position -> bool;
  (** [game.board()] *)
  board_of : Position -> Board;
  (** [game.turn()] *)
  turn_of : Position -> Color
}.

(** The source of randomness behind [Math.random()], as the engines consume
    it. [random_index n] is [Math.floor(Math.random() * n)]: [Math.random()]
    lies in [0, 1), so the index is below [n]. [shuffle moves] is the array
    after [moves.sort(() => Math.random() - 0.5)]: whatever the comparator
    answers, the sort leaves the same elements in some order. *)
Record Random : Type := {
  random_index : nat -> nat;
  random_index_lt : forall n, (0 < n)%nat -> (random_index n < n)%nat;
  shuffle : list Move -> list Move;
  shuffle_perm : forall l, Permutation l (shuffle l)
}.

(** [Difficulty] of both engines. *)
Inductive Difficulty : Type := Beginner | Easy | Hard | Master.

(** ** The mutable [Chess] object *)

Section Game.

Context {Position : Type} `{RulesEngine Position}.

(** The position on the board and the history [undo] restores from. *)
Record Chess : Type := mkChess { current : Position; history : list Position }.

(** Computations over the shared [Chess] object that may throw. *)
Definition M (A : Type) : Type := Chess -> option (A * Chess).

Definition ret {A : Type} (a : A) : M A := fun g => Some (a, g).

Definition bind {A B : Type} (c : M A) (k : A -> M B) : M B :=
  fun g =>
    match c g with
    | Some (a, g') => k a g'
    | None => None
    end.

(** [game.moves()] *)
Definition game_moves : M (list Move) :=
  fun g => Some (legal_moves (current g), g).

(** [game.move(m)]: throws unless [m] is legal in the current position. *)
Definition game_move (m : Move) : M unit :=
  fun g =>
    if in_dec string_dec m (legal_moves (current g))
    then Some (tt, mkChess (apply_move (current g) m) (current g :: history g))
    else None.

(** [game.undo()]: takes back the last move; does nothing on an empty history. *)
Definition game_undo : M unit :=
  fun g =>
    match history g with
    | [] => Some (tt, g)
    | p :: h => Some (tt, mkChess p h)
    end.

(** [game.isGameOver()] *)
Definition game_isGameOver : M bool :=
  fun g => Some (is_game_over (current g), g).

(** [game.turn()] *)
Definition game_turn : M Color :=
  fun g => Some (turn_of (current g), g).

(** [game.board()] *)
Definition game_board : M Board :=
  fun g => Some (board_of (current g), g).

End Game.

Arguments Chess Position : clear implicits.
Arguments M Position A : clear implicits.

Declare Scope game_scope.
Delimit Scope game_scope with game.
Notation "x <- c1 ;; c2" := (bind c1 (fun x => c2))
  (at level 61, c1 at next level, right associativity) : game_scope.
Notation "c1 ;; c2" := (bind c1 (fun _ => c2))
  (at level 61, right associativity) : game_scope.

(** The piece values, the same table in both engines. *)
Definition PIECE_VALUES (t : PieceSymbol) : option Z :=
  match t with
  | Pawn => Some 10
  | Knight => Some 30
  | Bishop => Some 30
  | Rook => Some 50
  | Queen => Some 90
  | King => Some 900
  end.

(** ** [src/lib/ai.ts] *)

Module Ai.

(** The contribution of [board[i][j]] added to [totalEvaluation]. *)
Definition add_square (board : Board) (i j : nat) (totalEvaluation : Z) : Z :=
  match square board i j with
  | Some piece =>
      let value := or_zero (PIECE_VALUES (ptype piece)) in
      totalEvaluation + (if color_eqb (pcolor piece) White then value else - value)
  | None => totalEvaluation
  end.

(** The two nested loops of [evaluateBoard] over [i] and [j] in 0..7. *)
Definition evaluate (board : Board) : Z :=
  fold_left
    (fun total i => fold_left (fun total j => add_square board i j total) (seq 0 8) total)
    (seq 0 8) 0.

Section Engine.

Context {Position : Type} `{RulesEngine Position}.
Local Open Scope game_scope.

Definition evaluateBoard : M Position Z :=
  board <- game_board ;; ret (evaluate board).

(** The [for] loop of the maximizing branch, with its [break]. *)
Definition max_loop (child : number -> number -> M Position Z) (beta : number)
  : list Move -> Z -> number -> M Position Z :=
  fix loop (moves : list Move) (bestEval : Z) (alpha : number) : M Position Z :=
    match moves with
    | [] => ret bestEval
    | move :: rest =>
        game_move move ;;
        ev <- child alpha beta ;;
        let bestEval := Z.max bestEval ev in
        game_undo ;;
        let alpha := num_max alpha bestEval in
        if num_leb beta alpha then ret bestEval else loop rest bestEval alpha
    end.

(** The [for] loop of the minimizing branch. *)
Definition min_loop (child : number -> number -> M Position Z) (alpha : number)
  : list Move -> Z -> number -> M Position Z :=
  fix loop (moves : list Move) (bestEval : Z) (beta : number) : M Position Z :=
    match moves with
    | [] => ret bestEval
    | move :: rest =>
        game_move move ;;
        ev <- child alpha beta ;;
        let bestEval := Z.min bestEval ev in
        game_undo ;;
        let beta := num_min beta bestEval in
        if num_leb beta alpha then ret bestEval else loop rest bestEval beta
    end.

(** [minimax]. The function is private to the module and is entered with
    [depth - 1] for a depth in 1..4, then with [depth - 1] below a failed
    [depth === 0] test: its depth is a natural number. *)
Fixpoint minimax (depth : nat) (alpha beta : number) (isMaximizingPlayer : bool)
  : M Position Z :=
  match depth with
  | O => e <- evaluateBoard ;; ret (- e)
  | S depth' =>
      over <- game_isGameOver ;;
      if over then e <- evaluateBoard ;; ret (- e)
      else
        moves <- game_moves ;;
        if isMaximizingPlayer
        then max_loop (fun a b => minimax depth' a b false) beta moves (-9999) alpha
        else min_loop (fun a b => minimax depth' a b true) alpha moves 9999 beta
  end.

(** [depth] as [getBestMove] sets it. *)
Definition depth_of (difficulty : Difficulty) : nat :=
  match difficulty with
  | Beginner => 1
  | Easy => 2
  | Hard => 3
  | Master => 4
  end.

(** The selection loop of [getBestMove] over the shuffled moves; the state is
    [(bestMove, bestValue)]. The locals [isBlack], [aiColor] and [moveValue]
    are computed and never used, and the [if (aiColor === 'b')] block is
    empty. *)
Definition select_loop (depth : nat)
  : list Move -> option Move * Z -> M Position (option Move * Z) :=
  fix loop (moves : list Move) (best : option Move * Z) : M Position (option Move * Z) :=
    match moves with
    | [] => ret best
    | move :: rest =>
        let '(bestMove, bestValue) := best in
        game_move move ;;
        t <- game_turn ;;
        boardValue <- minimax (depth - 1) (Fin (-10000)) (Fin 10000) (color_eqb t White) ;;
        t' <- game_turn ;;
        let best' :=
          if color_eqb t' Black
          then if bestValue <? boardValue then (Some move, boardValue) else best
          else match bestMove with
               | None => (Some move, boardValue)
               | Some _ => if boardValue <? bestValue then (Some move, boardValue) else best
               end in
        game_undo ;;
        loop rest best'
    end.

(** [!bestMove]: [null] and the empty string are falsy. *)
Definition falsy (bestMove : option Move) : bool :=
  match bestMove with
  | None => true
  | Some s => if string_dec s EmptyString then true else false
  end.

(** [getBestMove]; the result is [None] for [null]. [moves.sort] sorts in
    place, so [moves[0]] of the fallback is the head of the shuffled array. *)
Definition getBestMove (rnd : Random) (difficulty : Difficulty) : M Position (option Move) :=
  moves <- game_moves ;;
  match moves with
  | [] => ret None
  | _ :: _ =>
      match difficulty with
      | Beginner => ret (nth_error moves (random_index rnd (List.length moves)))
      | _ =>
          let depth := depth_of difficulty in
          let shuffledMoves := shuffle rnd moves in
          best <- select_loop depth shuffledMoves (None, -9999) ;;
          if falsy (fst best) then ret (nth_error shuffledMoves 0) else ret (fst best)
      end
  end.

End Engine.

End Ai.

(** ** [src/lib/chessAI.ts] *)

Module ChessAI.

(** The piece-square tables [PST]: one for pawns, one for knights, written
    from White's side; no other piece has one. *)
Definition PST_p : list Z :=
  [  0;  0;   0;  0;  0;   0;  0;  0;
     5;  5;   5; -5; -5;   5;  5;  5;
     5; -5; -10;  0;  0; -10; -5;  5;
     0;  0;   0; 20; 20;   0;  0;  0;
     5;  5;  10; 25; 25;  10;  5;  5;
    10; 10;  20; 30; 30;  20; 10; 10;
    50; 50;  50; 50; 50;  50; 50; 50;
     0;  0;   0;  0;  0;   0;  0;  0 ].

Definition PST_n : list Z :=
  [ -50; -40; -30; -30; -30; -30; -40; -50;
    -40; -20;   0;   5;   5;   0; -20; -40;
    -30;   5;  10;  15;  15;  10;   5; -30;
    -30;   0;  15;  20;  20;  15;   0; -30;
    -30;   5;  15;  20;  20;  15;   5; -30;
    -30;   0;  10;  15;  15;  10;   0; -30;
    -40; -20;   0;   0;   0;   0; -20; -40;
    -50; -40; -30; -30; -30; -30; -40; -50 ].

Definition PST (t : PieceSymbol) : option (list Z) :=
  match t with
  | Pawn => Some PST_p
  | Knight => Some PST_n
  | _ => None
  end.

(** [PST[t]?.[idx] || 0] *)
Definition pst_lookup (t : PieceSymbol) (idx : nat) : Z :=
  or_zero (match PST t with
           | Some table => nth_error table idx
           | None => None
           end).

(** [posScore] of the piece on [board[i][j]]. *)
Definition posScore (piece : Piece) (i j : nat) : Z :=
  match ptype piece with
  | Pawn | Knight =>
      if color_eqb (pcolor piece) White
      then pst_lookup (ptype piece) (i * 8 + j)
      else pst_lookup (ptype piece) ((7 - i) * 8 + j)
  | _ => 0
  end.

(** The contribution of [board[i][j]] added to [totalEvaluation]. *)
Definition add_square (board : Board) (i j : nat) (totalEvaluation : Z) : Z :=
  match square board i j with
  | Some piece =>
      let value := or_zero (PIECE_VALUES (ptype piece)) in
      totalEvaluation
      + (value + posScore piece i j) * (if color_eqb (pcolor piece) White then 1 else -1)
  | None => totalEvaluation
  end.

(** The two nested loops of [evaluateBoard] over [i] and [j] in 0..7. *)
Definition evaluate (board : Board) : Z :=
  fold_left
    (fun total i => fold_left (fun total j => add_square board i j total) (seq 0 8) total)
    (seq 0 8) 0.

Section Engine.

Context {Position : Type} `{RulesEngine Position}.
Local Open Scope game_scope.

Definition evaluateBoard : M Position Z :=
  board <- game_board ;; ret (evaluate board).

(** The [for] loop of the maximizing branch, with its [break]. *)
Definition max_loop (child : number -> number -> M Position Z) (beta : number)
  : list Move -> Z -> number -> M Position Z :=
  fix loop (moves : list Move) (bestEval : Z) (alpha : number) : M Position Z :=
    match moves with
    | [] => ret bestEval
    | move :: rest =>
        game_move move ;;
        ev <- child alpha beta ;;
        game_undo ;;
        let bestEval := Z.max bestEval ev in
        let alpha := num_max alpha ev in
        if num_leb beta alpha then ret bestEval else loop rest bestEval alpha
    end.

(** The [for] loop of the minimizing branch. *)
Definition min_loop (child : number -> number -> M Position Z) (alpha : number)
  : list Move -> Z -> number -> M Position Z :=
  fix loop (moves : list Move) (bestEval : Z) (beta : number) : M Position Z :=
    match moves with
    | [] => ret bestEval
    | move :: rest =>
        game_move move ;;
        ev <- child alpha beta ;;
        game_undo ;;
        let bestEval := Z.min bestEval ev in
        let beta := num_min beta ev in
        if num_leb beta alpha then ret bestEval else loop rest bestEval beta
    end.

(** [minimax]; as in [Ai], its depth is a natural number: it is entered with
    [depth - 1] for a depth of 1 or 3. *)
Fixpoint minimax (depth : nat) (alpha beta : number) (isMaximizingPlayer : bool)
  : M Position Z :=
  match depth with
  | O => e <- evaluateBoard ;; ret (- e)
  | S depth' =>
      over <- game_isGameOver ;;
      if over then e <- evaluateBoard ;; ret (- e)
      else
        moves <- game_moves ;;
        if isMaximizingPlayer
        then max_loop (fun a b => minimax depth' a b (negb isMaximizingPlayer))
                      beta moves (-99999) alpha
        else min_loop (fun a b => minimax depth' a b (negb isMaximizingPlayer))
                      alpha moves 99999 beta
  end.

(** [depth] as [getBestMove] sets it. *)
Definition depth_of (difficulty : Difficulty) : nat :=
  match difficulty with
  | Beginner => 1
  | Easy => 1
  | Hard => 3
  | Master => 3
  end.

(** The first scoring loop of [getBestMove]; the state is
    [(bestMove, bestValue)], updated for White only. *)
Definition first_loop (depth : nat) (isWhite : bool)
  : list Move -> option Move * Z -> M Position (option Move * Z) :=
  fix loop (moves : list Move) (best : option Move * Z) : M Position (option Move * Z) :=
    match moves with
    | [] => ret best
    | move :: rest =>
        game_move move ;;
        boardValue <- minimax (depth - 1) (Fin (-100000)) (Fin 100000) (negb isWhite) ;;
        game_undo ;;
        let best' :=
          if isWhite
          then if snd best <? boardValue then (Some move, boardValue) else best
          else best in
        loop rest best'
    end.

(** The second ("re-run") loop; the state is [(bestMoveFound, bestValFound)]. *)
Definition rerun_loop (depth : nat) (isWhite : bool)
  : list Move -> option Move * number -> M Position (option Move * number) :=
  fix loop (moves : list Move) (best : option Move * number)
    : M Position (option Move * number) :=
    match moves with
    | [] => ret best
    | move :: rest =>
        game_move move ;;
        val <- minimax (depth - 1) NegInf PosInf (negb isWhite) ;;
        game_undo ;;
        let best' :=
          if isWhite
          then if num_ltb (snd best) (Fin val) then (Some move, Fin val) else best
          else if num_ltb (Fin val) (snd best) then (Some move, Fin val) else best in
        loop rest best'
    end.

(** [getBestMove]; the result is [None] for [null]. *)
Definition getBestMove (rnd : Random) (difficulty : Difficulty) : M Position (option Move) :=
  possibleMoves <- game_moves ;;
  match possibleMoves with
  | [] => ret None
  | _ :: _ =>
      match difficulty with
      | Beginner =>
          ret (nth_error possibleMoves (random_index rnd (List.length possibleMoves)))
      | _ =>
          let depth := depth_of difficulty in
          t <- game_turn ;;
          let isWhite := color_eqb t White in
          first_loop depth isWhite possibleMoves (None, -99999) ;;
          let bestMoveFound := nth_error possibleMoves 0 in
          let bestValFound := if isWhite then NegInf else PosInf in
          best <- rerun_loop depth isWhite possibleMoves (bestMoveFound, bestValFound) ;;
          ret (fst best)
      end
  end.

(** [getBestMove] with its first scoring loop deleted: what is left of the
    function once the statements whose results are never read are removed. *)
Definition getBestMove_rerun_only (rnd : Random) (difficulty : Difficulty)
  : M Position (option Move) :=
  possibleMoves <- game_moves ;;
  match possibleMoves with
  | [] => ret None
  | _ :: _ =>
      match difficulty with
      | Beginner =>
          ret (nth_error possibleMoves (random_index rnd (List.length possibleMoves)))
      | _ =>
          let depth := depth_of difficulty in
          t <- game_turn ;;
          let isWhite := color_eqb t White in
          let bestMoveFound := nth_error possibleMoves 0 in
          let bestValFound := if isWhite then NegInf else PosInf in
          best <- rerun_loop depth isWhite possibleMoves (bestMoveFound, bestValFound) ;;
          ret (fst best)
      end
  end.

End Engine.

End ChessAI.

(** ** The search as a function of the position

    Both [minimax] functions leave the [Chess] object as they found it (proved
    below), so each is determined by a function of the current position.
    [search] is that function for both: [leaf] is the score of a terminal
    node, [lo] and [hi] the initial values of [bestEval], and [by_best] tells
    whether the window is narrowed with [bestEval] (ai.ts) or with the
    child's score (chessAI.ts). *)

Section Search.

Context {Position : Type} `{RulesEngine Position}.
Variable leaf : Position -> Z.
Variables lo hi : Z.
Variable by_best : bool.

Definition scan_max (child : number -> number -> Position -> Z) (beta : number) (p : Position)
  : list Move -> Z -> number -> Z :=
  fix scan (moves : list Move) (bestEval : Z) (alpha : number) : Z :=
    match moves with
    | [] => bestEval
    | move :: rest =>
        let ev := child alpha beta (apply_move p move) in
        let bestEval := Z.max bestEval ev in
        let alpha := num_max alpha (if by_best then bestEval else ev) in
        if num_leb beta alpha then bestEval else scan rest bestEval alpha
    end.

Definition scan_min (child : number -> number -> Position -> Z) (alpha : number) (p : Position)
  : list Move -> Z -> number -> Z :=
  fix scan (moves : list Move) (bestEval : Z) (beta : number) : Z :=
    match moves with
    | [] => bestEval
    | move :: rest =>
        let ev := child alpha beta (apply_move p move) in
        let bestEval := Z.min bestEval ev in
        let beta := num_min beta (if by_best then bestEval else ev) in
        if num_leb beta alpha then bestEval else scan rest bestEval beta
    end.

Fixpoint search (depth : nat) (alpha beta : number) (isMaximizingPlayer : bool)
  (p : Position) : Z :=
  match depth with
  | O => leaf p
  | S depth' =>
      if is_game_over p then leaf p
      else if isMaximizingPlayer
           then scan_max (fun a b => search depth' a b (negb isMaximizingPlayer))
                         beta p (legal_moves p) lo alpha
           else scan_min (fun a b => search depth' a b (negb isMaximizingPlayer))
                         alpha p (legal_moves p) hi beta
  end.

(** Minimax over the same tree without pruning: no window and no [break],
    every child is visited and the best score over all of them is kept. *)
Fixpoint unpruned (depth : nat) (isMaximizingPlayer : bool) (p : Position) : Z :=
  match depth with
  | O => leaf p
  | S depth' =>
      if is_game_over p then leaf p
      else
        let scores :=
          map (fun move => unpruned depth' (negb isMaximizingPlayer) (apply_move p move))
              (legal_moves p) in
        if isMaximizingPlayer
        then fold_left Z.max scores lo
        else fold_left Z.min scores hi
  end.

(** The textbook minimax: the maximum, or minimum, of the children's values,
    and the terminal score where there is no child. *)
Fixpoint minimax_value (depth : nat) (isMaximizingPlayer : bool) (p : Position) : Z :=
  match depth with
  | O => leaf p
  | S depth' =>
      if is_game_over p then leaf p
      else
        match map (fun move => minimax_value depth' (negb isMaximizingPlayer)
                                 (apply_move p move))
                  (legal_moves p) with
        | [] => leaf p
        | score :: scores =>
            if isMaximizingPlayer
            then fold_left Z.max scores score
            else fold_left Z.min scores score
        end
  end.

(** What a fail-soft result [r] says about the exact value [v] of a node
    searched with the window [(a, b)]. *)
Definition agree (a b : number) (v r : Z) : Prop :=
  (num_le (Fin r) a -> v <= r) /\
  (num_le b (Fin r) -> r <= v) /\
  (num_lt a (Fin r) -> num_lt (Fin r) b -> r = v).

End Search.

(** The score [minimax] returns at a terminal node, per engine. *)
Definition ai_leaf {Position : Type} `{RulesEngine Position} (p : Position) : Z :=
  - Ai.evaluate (board_of p).

Definition chessai_leaf {Position : Type} `{RulesEngine Position} (p : Position) : Z :=
  - ChessAI.evaluate (board_of p).

(** The two searches as functions of the position. *)
Definition ai_search {Position : Type} `{RulesEngine Position} :=
  search ai_leaf (-9999) 9999 true.

Definition chessai_search {Position : Type} `{RulesEngine Position} :=
  search chessai_leaf (-99999) 99999 false.

(** The score the re-run loop of [ChessAI.getBestMove] gives the candidate [m]. *)
Definition rerun_score {Position : Type} `{RulesEngine Position}
  (depth : nat) (isWhite : bool) (p : Position) (m : Move) : Z :=
  chessai_search (depth - 1) NegInf PosInf (negb isWhite) (apply_move p m).

(** The score the selection loop of [Ai.getBestMove] gives the candidate [m]
    when it is Black who moves, so that White is to move after [m]. *)
Definition select_score {Position : Type} `{RulesEngine Position}
  (depth : nat) (p : Position) (m : Move) : Z :=
  ai_search (depth - 1) (Fin (-10000)) (Fin 10000) true (apply_move p m).

(** The score the selection loop of [Ai.getBestMove] gives the candidate
    [m]: [minimax(game, depth - 1, -10000, 10000, game.turn() === 'w')] on the
    position after [m]. *)
Definition ai_score {Position : Type} `{RulesEngine Position}
  (depth : nat) (p : Position) (m : Move) : Z :=
  ai_search (depth - 1) (Fin (-10000)) (Fin 10000)
    (color_eqb (turn_of (apply_move p m)) White) (apply_move p m).

(** ** The evaluators as the specification words them *)

(** The material value table of the specification. *)
Definition material (t : PieceSymbol) : Z :=
  match t with
  | Pawn => 10
  | Knight => 30
  | Bishop => 30
  | Rook => 50
  | Queen => 90
  | King => 900
  end.

(** +1 for the reference side (White), -1 for the other. *)
Definition sign (c : Color) : Z :=
  match c with
  | White => 1
  | Black => -1
  end.

(** The square index for White, the vertically mirrored one for Black. *)
Definition table_index (c : Color) (i j : nat) : nat :=
  match c with
  | White => i * 8 + j
  | Black => (7 - i) * 8 + j
  end.

(** The positional bonus: pawns and knights only. *)
Definition bonus (piece : Piece) (i j : nat) : Z :=
  match ptype piece with
  | Pawn => nth (table_index (pcolor piece) i j) ChessAI.PST_p 0
  | Knight => nth (table_index (pcolor piece) i j) ChessAI.PST_n 0
  | _ => 0
  end.

(** The pieces on the board with their coordinates, rank 8 first. *)
Definition pieces_of (board : Board) : list (nat * nat * Piece) :=
  flat_map
    (fun i =>
       flat_map
         (fun j =>
            match square board i j with
            | Some piece => [(i, j, piece)]
            | None => []
            end)
         (seq 0 8))
    (seq 0 8).

Definition sum_Z (l : list Z) : Z := fold_right Z.add 0 l.

(** Sum over all pieces of signed material plus positional bonus. *)
Definition material_and_position (board : Board) : Z :=
  sum_Z (map (fun '(i, j, piece) => sign (pcolor piece) * (material (ptype piece) + bonus piece i j))
             (pieces_of board)).

(** Sum over all pieces of signed material alone. *)
Definition material_only (board : Board) : Z :=
  sum_Z (map (fun '(i, j, piece) => sign (pcolor piece) * material (ptype piece))
             (pieces_of board)).

(** What the square [board[i][j]] contributes, per engine. *)
Definition ai_term (board : Board) (i j : nat) : Z :=
  match square board i j with
  | Some piece => sign (pcolor piece) * material (ptype piece)
  | None => 0
  end.

Definition chessai_term (board : Board) (i j : nat) : Z :=
  match square board i j with
  | Some piece => sign (pcolor piece) * (material (ptype piece) + bonus piece i j)
  | None => 0
  end.

(** The sum of [term i j] over the 64 squares. *)
Definition grid_sum (term : nat -> nat -> Z) : Z :=
  sum_Z (map (fun i => sum_Z (map (term i) (seq 0 8))) (seq 0 8)).

(** The color-mirrored counterpart of a board: every piece changes sides and
    the ranks are flipped. *)
Definition opposite (c : Color) : Color :=
  match c with
  | White => Black
  | Black => White
  end.

Definition swap_side (sq : option Piece) : option Piece :=
  match sq with
  | Some piece => Some (mkPiece (ptype piece) (opposite (pcolor piece)))
  | None => None
  end.

Definition mirror_board (board : Board) : Board :=
  map (map swap_side) (rev board).

(** ** A scripted rules engine

    A finite fragment of a game, written out: the board, the side to move,
    whether the position is drawn, and every legal move with the position it
    leads to. As in chess.js the game is over when the position is drawn or
    the side to move has no legal move (checkmate or stalemate). *)

#[warning="-register-all"]
Inductive Script : Type :=
  Node (board : Board) (turn : Color) (drawn : bool) (replies : list (Move * Script)).

Definition script_replies (s : Script) : list (Move * Script) :=
  match s with
  | Node _ _ _ replies => replies
  end.

Definition script_reply (s : Script) (m : Move) : Script :=
  match find (fun r => String.eqb m (fst r)) (script_replies s) with
  | Some r => snd r
  | None => s
  end.

#[export] Instance script_engine : RulesEngine Script := {
  legal_moves s := map fst (script_replies s);
  apply_move := script_reply;
  is_game_over s :=
    match s with
    | Node _ _ drawn replies => drawn || match replies with [] => true | _ => false end
    end;
  board_of s := match s with Node board _ _ _ => board end;
  turn_of s := match s with Node _ turn _ _ => turn end
}.

(** The board holding the listed pieces, [(i, j, piece)] for [board[i][j]]. *)
Definition setup (pieces : list (nat * nat * Piece)) : Board :=
  map (fun i =>
         map (fun j =>
                match find (fun e => Nat.eqb (fst (fst e)) i && Nat.eqb (snd (fst e)) j) pieces with
                | Some e => Some (snd e)
                | None => None
                end)
             (seq 0 8))
      (seq 0 8).

Definition wK : Piece := mkPiece King White.
Definition wQ : Piece := mkPiece Queen White.
Definition wP : Piece := mkPiece Pawn White.
Definition bK : Piece := mkPiece King Black.
Definition bP : Piece := mkPiece Pawn Black.

(** A position the search has not been scripted beyond. *)
Definition frontier (pieces : list (nat * nat * Piece)) (turn : Color) : Script :=
  Node (setup pieces) turn false [].

(** [7k/6pp/6Q1/8/8/8/8/K7 b - - 0 1]: Black to move can take the undefended
    queen on g6 with the h-pawn. The four legal moves, in the order chess.js
    lists them, each with the position after it. *)
Definition queen_en_prise : Script :=
  Node (setup [(0, 7, bK); (1, 6, bP); (1, 7, bP); (2, 6, wQ); (7, 0, wK)]%nat) Black false
    [ ("Kg8"%string,
        frontier [(0, 6, bK); (1, 6, bP); (1, 7, bP); (2, 6, wQ); (7, 0, wK)]%nat White);
      ("h6"%string,
        frontier [(0, 7, bK); (1, 6, bP); (2, 7, bP); (2, 6, wQ); (7, 0, wK)]%nat White);
      ("h5"%string,
        frontier [(0, 7, bK); (1, 6, bP); (3, 7, bP); (2, 6, wQ); (7, 0, wK)]%nat White);
      ("hxg6"%string,
        frontier [(0, 7, bK); (1, 6, bP); (2, 6, bP); (7, 0, wK)]%nat White) ].

(** White's replies in [8/8/8/3k4/3P4/8/8/7K] after the black king has gone
    to [(ki, kj)] without taking the pawn: the pawn push ([d5], written [d5+]
    when it gives check) and the three king moves. *)
Definition pawn_replies (ki kj : nat) (push : Move) : list (Move * Script) :=
  [ (push, frontier [(ki, kj, bK); (3, 3, wP); (7, 7, wK)]%nat Black);
    ("Kg2"%string, frontier [(ki, kj, bK); (4, 3, wP); (6, 6, wK)]%nat Black);
    ("Kh2"%string, frontier [(ki, kj, bK); (4, 3, wP); (6, 7, wK)]%nat Black);
    ("Kg1"%string, frontier [(ki, kj, bK); (4, 3, wP); (7, 6, wK)]%nat Black) ].

Definition after_king_move (ki kj : nat) (push : Move) : Script :=
  Node (setup [(ki, kj, bK); (4, 3, wP); (7, 7, wK)]%nat) White false (pawn_replies ki kj push).

(** [8/8/8/3k4/3P4/8/8/7K b - - 0 1]: Black to move can take the undefended
    pawn on d4; c5 and e5 are covered by the pawn. After [Kxd4] only the two
    kings remain, which chess.js reports as a draw. Scripted two plies deep. *)
Definition pawn_en_prise : Script :=
  Node (setup [(3, 3, bK); (4, 3, wP); (7, 7, wK)]%nat) Black false
    [ ("Kc6"%string, after_king_move 2 2 "d5+"%string);
      ("Kd6"%string, after_king_move 2 3 "d5"%string);
      ("Ke6"%string, after_king_move 2 4 "d5+"%string);
      ("Ke4"%string, after_king_move 4 4 "d5"%string);
      ("Kxd4"%string,
        Node (setup [(4, 3, bK); (7, 7, wK)]%nat) White true
          [ ("Kg2"%string, frontier [(4, 3, bK); (6, 6, wK)]%nat Black);
            ("Kh2"%string, frontier [(4, 3, bK); (6, 7, wK)]%nat Black);
            ("Kg1"%string, frontier [(4, 3, bK); (7, 6, wK)]%nat Black) ]);
      ("Kc4"%string, after_king_move 4 2 "d5"%string) ].


(** [queen_en_prise] with the colors swapped and the board flipped. *)
Definition queen_en_prise_mirrored : Script :=
  Node (mirror_board (setup [(0, 7, bK); (1, 6, bP); (1, 7, bP); (2, 6, wQ); (7, 0, wK)]%nat))
       White false [].

(** A [Chess] object freshly created on a position. *)
Definition new_game {Position : Type} (p : Position) : Chess Position := mkChess p [].

(** Two sources of randomness that differ in how the sort leaves the array:
    as it was, or reversed. *)
Definition keep_order : Random :=
  {| random_index := fun _ => 0%nat;
     random_index_lt := fun n h => h;
     shuffle := fun l => l;
     shuffle_perm := fun l => Permutation_refl l |}.

Definition reverse_order : Random :=
  {| random_index := fun _ => 0%nat;
     random_index_lt := fun n h => h;
     shuffle := fun l => rev l;
     shuffle_perm := fun l => Permutation_rev l |}.

(** ** Further definitions *)

(** A source of randomness whose [Math.floor(Math.random() * n)] is [k]
    whenever [k] is below [n]. *)
Definition pick_index (k : nat) : Random :=
  {| random_index := fun n => if (k <? n)%nat then k else 0%nat;
     random_index_lt := fun n h =>
       match (k <? n)%nat as b return (k <? n)%nat = b -> ((if b then k else 0) < n)%nat with
       | true => fun e => proj1 (Nat.ltb_lt k n) e
       | false => fun _ => h
       end eq_refl;
     shuffle := fun l => l;
     shuffle_perm := fun l => Permutation_refl l |}.

(** An order the sort can leave the array in: the first occurrence of [m]
    is carried to the front, each candidate before it moving one place
    back. *)
Fixpoint carry_forward (m : Move) (l : list Move) : list Move :=
  match l with
  | [] => []
  | x :: rest =>
      if string_dec x m then x :: rest
      else match carry_forward m rest with
           | [] => [x]
           | y :: rest' => y :: x :: rest'
           end
  end.

Definition carry_forward_perm (m : Move) (l : list Move) :
  Permutation l (carry_forward m l).
Proof.
  induction l as [| x rest IH]; [constructor |].
  cbn [carry_forward]. destruct (string_dec x m); [apply Permutation_refl |].
  destruct (carry_forward m rest) as [| y rest'].
  - apply Permutation_sym, Permutation_nil in IH. subst rest. apply Permutation_refl.
  - exact (perm_trans (perm_skip x IH) (perm_swap y x rest')).
Qed.

(** A source of randomness whose shuffle puts the candidate [m] first. *)
Definition lead_with (m : Move) : Random :=
  {| random_index := fun _ => 0%nat;
     random_index_lt := fun n h => h;
     shuffle := carry_forward m;
     shuffle_perm := carry_forward_perm m |}.

(** The board reflected left to right: file a becomes file h. *)
Definition reflect_board (board : Board) : Board := map (@rev (option Piece)) board.

(** The board of the starting position. *)
Definition starting_board : Board :=
  let back (c : Color) :=
    map (fun t => Some (mkPiece t c)) [Rook; Knight; Bishop; Queen; King; Bishop; Knight; Rook] in
  let pawns (c : Color) := repeat (Some (mkPiece Pawn c)) 8 in
  let empty := repeat (@None Piece) 8 in
  [back Black; pawns Black; empty; empty; empty; empty; pawns White; back White].

(** Whether every terminal score that [unpruned] reads from [p] down to
    [depth] plies lies between [lo] and [hi]. *)
Fixpoint leaves_within {Position : Type} `{RulesEngine Position}
  (leaf : Position -> Z) (lo hi : Z) (depth : nat) (p : Position) : bool :=
  match depth with
  | O => (lo <=? leaf p) && (leaf p <=? hi)
  | S depth' =>
      if is_game_over p then (lo <=? leaf p) && (leaf p <=? hi)
      else forallb (fun m => leaves_within leaf lo hi depth' (apply_move p m)) (legal_moves p)
  end.

(** ** The callers of [getBestMove]

    Both pages keep the [Chess] object in component state and make every
    move on a copy, [new Chess(game.fen())]: a fresh object, without history,
    on the same position (a position being what a FEN string encodes). The
    database update a page sends after a move is modelled as an output: the
    list of what was published. The timer that delays the computer's reply
    is left out; the models are of the callback that runs when it fires. *)

(** A [string | null | undefined] value is truthy when it is a non-empty
    string. *)
Definition truthy (s : option string) : bool :=
  match s with
  | Some s' => if string_dec s' EmptyString then false else true
  | None => false
  end.

(** [src/components/ChessBoardGame.tsx], which plays against [chessAI.ts]. *)
Module ChessBoardGame.

(** [GameMode] of [src/App.tsx]. *)
Inductive GameMode : Type := local | ai | multiplayer.

Definition is_ai (mode : GameMode) : bool :=
  match mode with
  | ai => true
  | _ => false
  end.

Definition is_multiplayer (mode : GameMode) : bool :=
  match mode with
  | multiplayer => true
  | _ => false
  end.

Section Component.

Context {Position : Type} `{RulesEngine Position}.

(** The state [makeMove] and the effects read and write: [game] and [fen]. *)
Record State : Type := mkState { game : Chess Position; fen : Position }.

(** [makeMove(move)] for a SAN string: the result, the next state and the
    positions sent to the [games] table. *)
Definition makeMove (mode : GameMode) (roomId : option string) (move : Move) (st : State)
  : bool * State * list Position :=
  let gameCopy := mkChess (current (game st)) [] in
  match game_move move gameCopy with
  | Some (_, gameCopy) =>
      (true, mkState gameCopy (current gameCopy),
       if is_multiplayer mode && truthy roomId then [current gameCopy] else [])
  | None => (false, st, [])
  end.

(** The "AI Move Effect": its guard and the body of its callback. [None]
    stands for an exception escaping [getBestMove]. *)
Definition aiMoveEffect (mode : GameMode) (difficulty : Difficulty) (roomId : option string)
  (rnd : Random) (st : State) : option (State * list Position) :=
  if is_ai mode && color_eqb (turn_of (current (game st))) Black
     && negb (is_game_over (current (game st)))
  then
    match ChessAI.getBestMove rnd difficulty (game st) with
    | Some (bestMove, game') =>
        let st' := mkState game' (fen st) in
        if truthy bestMove
        then match bestMove with
             | Some move => let '(_, st'', sent) := makeMove mode roomId move st' in
                            Some (st'', sent)
             | None => Some (st', [])
             end
        else Some (st', [])
    | None => None
    end
  else Some (st, []).

End Component.

End ChessBoardGame.

(** [checkmate] and [draw] as chess.js reports them. *)
Class StatusQueries (Position : Type) : Type := {
  (** [game.isCheckmate()] *)
  is_checkmate : Position -> bool;
  (** [game.isDraw()] *)
  is_draw : Position -> bool
}.

(** [src/pages/GameRoom.tsx], which plays against [ai.ts]. *)
Module GameRoom.

Section Component.

Context {Position : Type} `{RulesEngine Position} `{StatusQueries Position}.

(** The state [safeMove] and the "AI Logic" effect read and write. *)
Record State : Type := mkState { game : Chess Position; status : string }.

(** [checkGameOver(g)]: the status after it. *)
Definition checkGameOver (g : Chess Position) (status : string) : string :=
  if is_game_over (current g)
  then if is_checkmate (current g)
       then ("Checkmate! " ++ (if color_eqb (turn_of (current g)) White
                               then "Black" else "White") ++ " wins.")%string
       else if is_draw (current g) then "Draw!"%string else "Game Over"%string
  else status.

(** [safeMove(moveStr)] for a SAN string: the result ([None] for [null]), the
    next state and the objects sent to the [games] table. *)
Definition safeMove (gameId : option string) (moveStr : Move) (st : State)
  : option Move * State * list (Chess Position) :=
  let gameCopy := mkChess (current (game st)) [] in
  match game_move moveStr gameCopy with
  | Some (_, gameCopy) =>
      (Some moveStr, mkState gameCopy (checkGameOver gameCopy (status st)),
       if truthy gameId then [gameCopy] else [])
  | None => (None, st, [])
  end.

(** The "AI Logic" effect: its guard and the body of its callback. *)
Definition aiLogicEffect (mode gameId : option string) (aiDifficulty : Difficulty)
  (rnd : Random) (st : State) : option (State * list (Chess Position)) :=
  if match mode with
     | Some mode' => if string_dec mode' "ai" then true else false
     | None => false
     end
     && color_eqb (turn_of (current (game st))) Black
     && negb (is_game_over (current (game st)))
  then
    match Ai.getBestMove rnd aiDifficulty (mkChess (current (game st)) []) with
    | Some (bestMove, _) =>
        if truthy bestMove
        then match bestMove with
             | Some move => let '(_, st', sent) := safeMove gameId move st in
                            Some (st', sent)
             | None => Some (st, [])
             end
        else Some (st, [])
    | None => None
    end
  else Some (st, []).

End Component.

End GameRoom.

(** [src/components/Board.tsx], the board [GameRoom] renders. *)

(** What the board asks of chess.js besides [turn]. *)
Class BoardQueries (Position : Type) : Type := {
  (** a verbose move: the fields of chess.js' [Move] the board reads *)
  VerboseMove : Type;
  (** [m.to] *)
  move_to : VerboseMove -> string;
  (** [game.get(square)] *)
  piece_at : Position -> string -> option Piece;
  (** [game.moves({ square, verbose: true })] *)
  moves_from : Position -> string -> list VerboseMove
}.

Module BoardView.

Section Component.

Context {Position : Type} `{RulesEngine Position} `{BoardQueries Position}.

(** The component state: [selectedSquare] and [possibleMoves]. *)
Record State : Type :=
  mkState { selectedSquare : option string; possibleMoves : list VerboseMove }.

(** The state after [setSelectedSquare(null); setPossibleMoves([])]. *)
Definition cleared : State := mkState None [].

(** [handleSquareClick(square)]: the next state and the call of [onMove], if
    one is made. *)
Definition handleSquareClick (interactive : bool) (game : Chess Position) (square : string)
  (st : State) : State * option (string * string) :=
  if negb interactive then (st, None)
  else
    let same :=
      match selectedSquare st with
      | Some selected => if string_dec selected square then true else false
      | None => false
      end in
    if same then (cleared, None)
    else
      let moved :=
        if truthy (selectedSquare st)
        then match find (fun m => String.eqb (move_to m) square) (possibleMoves st) with
             | Some _ => selectedSquare st
             | None => None
             end
        else None in
      match moved with
      | Some selected => (cleared, Some (selected, square))
      | None =>
          match piece_at (current game) square with
          | Some piece =>
              if color_eqb (pcolor piece) (turn_of (current game))
              then (mkState (Some square) (moves_from (current game) square), None)
              else (cleared, None)
          | None => (cleared, None)
          end
      end.

(** What the state holds between clicks on a position [p]: no move listed
    without a selection, and a selection holds a piece of the side to move
    together with the moves the rules engine lists for it. *)
Definition consistent (p : Position) (st : State) : Prop :=
  match selectedSquare st with
  | None => possibleMoves st = []
  | Some selected =>
      possibleMoves st = moves_from p selected /\
      exists piece, piece_at p selected = Some piece /\ pcolor piece = turn_of p
  end.

End Component.

End BoardView.

(** What the board may ask about the root of [pawn_en_prise]: the three
    pieces and the six moves of the black king, by destination. *)
#[export] Instance pawn_en_prise_queries : BoardQueries Script := {
  VerboseMove := string;
  move_to m := m;
  piece_at _ square :=
    if string_dec square "d5" then Some bK
    else if string_dec square "d4" then Some wP
    else if string_dec square "h1" then Some wK
    else None;
  moves_from _ square :=
    if string_dec square "d5"
    then ["c6"; "d6"; "e6"; "e4"; "d4"; "c4"]%string
    else []
}.

(** The status queries on scripts: none of the scripted positions is a
    checkmate, so a position without moves is a stalemate, which chess.js
    counts as a draw. *)
#[export] Instance script_status : StatusQueries Script := {
  is_checkmate _ := false;
  is_draw s := is_game_over s
}.

(** ** The calculator of [src/App.tsx] (the file with [handleNumber])

    The handlers as transitions of the component state. [calculate] parses
    the two operands, applies the operation in floating point and formats
    the result ([parseFloat(result.toFixed(8)).toString()]); that numeric
    part is the parameter [format], and everything the handlers do with
    strings and with the history is modelled on it. *)

Module Calculator.

Import Ascii.

(** [s.includes('.')] *)
Fixpoint includes_dot (s : string) : bool :=
  match s with
  | EmptyString => false
  | String c s' => if Ascii.ascii_dec c "."%char then true else includes_dot s'
  end.

(** [s.slice(0, -1)]: [s] without its last character. *)
Definition drop_last (s : string) : string := substring 0 (String.length s - 1) s.

Section Component.

(** [formattedResult] from [previous], [operation] and [current]. *)
Variable format : string -> string -> string -> string.

Record State : Type := mkState {
  current : string;
  previous : option string;
  operation : option string;
  history : list string;
  showHistory : bool
}.

(** The state of the first render. *)
Definition initial : State := mkState "0" None None [] false.

Definition handleNumber (num : string) (st : State) : State :=
  if (if string_dec (current st) "0" then true else false)
     && (if string_dec num "." then false else true)
  then mkState num (previous st) (operation st) (history st) (showHistory st)
  else if includes_dot (current st) && (if string_dec num "." then true else false)
       then st
       else mkState (current st ++ num) (previous st) (operation st) (history st)
              (showHistory st).

Definition calculate (st : State) : State :=
  match previous st, operation st with
  | Some prev, Some op =>
      if truthy (Some prev) && truthy (Some op)
      then let formattedResult := format prev op (current st) in
           mkState formattedResult None None
             ((prev ++ " " ++ op ++ " " ++ current st ++ " = " ++ formattedResult)%string
              :: firstn 9 (history st))
             (showHistory st)
      else st
  | _, _ => st
  end.

Definition handleOperator (op : string) (st : State) : State :=
  match previous st with
  | None => mkState "0" (Some (current st)) (Some op) (history st) (showHistory st)
  | Some _ =>
      let st' := calculate st in
      mkState (current st') (previous st') (Some op) (history st') (showHistory st')
  end.

Definition clear (st : State) : State :=
  mkState "0" None None (history st) (showHistory st).

Definition deleteLast (st : State) : State :=
  if Nat.eqb (String.length (current st)) 1
  then mkState "0" (previous st) (operation st) (history st) (showHistory st)
  else mkState (drop_last (current st)) (previous st) (operation st) (history st)
         (showHistory st).

(** What the keypad and the history overlay can do: a digit or the point
    ([handleNumber] with that one character), an operator, [=], [C],
    backspace, and the two history buttons. *)
Inductive Event : Type :=
| PressNumber (c : Ascii.ascii)
| PressOperator (op : string)
| PressEquals
| PressClear
| PressDelete
| ToggleHistory
| ClearHistory.

Definition step (st : State) (e : Event) : State :=
  match e with
  | PressNumber c => handleNumber (String c EmptyString) st
  | PressOperator op => handleOperator op st
  | PressEquals => calculate st
  | PressClear => clear st
  | PressDelete => deleteLast st
  | ToggleHistory =>
      mkState (current st) (previous st) (operation st) (history st) (negb (showHistory st))
  | ClearHistory =>
      mkState (current st) (previous st) (operation st) [] (showHistory st)
  end.

(** The state after a run of events from the first render. *)
Definition run (events : list Event) : State := fold_left step events initial.

End Component.

(** The number of points in a string. *)
Fixpoint count_dots (s : string) : nat :=
  match s with
  | EmptyString => 0
  | String c s' => (if Ascii.ascii_dec c "."%char then 1 else 0) + count_dots s'
  end.

End Calculator.

(** * Proofs *)

(** ** Numbers *)

Lemma num_leb_true (x y : number) : num_leb x y = true -> num_le x y.
Proof.
  destruct x, y; simpl; intros E; try exact I; try discriminate.
  now apply Z.leb_le.
Qed.

Lemma num_leb_false (x y : number) : num_leb x y = false -> num_lt y x.
Proof.
  destruct x, y; simpl; intros E; try exact I; try discriminate.
  now apply Z.leb_gt.
Qed.

Lemma num_ltb_true (x y : number) : num_ltb x y = true -> num_lt x y.
Proof.
  destruct x, y; simpl; intros E; try exact I; try discriminate.
  now apply Z.ltb_lt.
Qed.

Lemma num_ltb_false (x y : number) : num_ltb x y = false -> num_le y x.
Proof.
  destruct x, y; simpl; intros E; try exact I; try discriminate.
  now apply Z.ltb_ge.
Qed.

Lemma fold_max_init (l : list Z) (x y : Z) :
  fold_left Z.max l (Z.max x y) = Z.max x (fold_left Z.max l y).
Proof.
  revert y. induction l as [| a l IH]; intros y; simpl.
  - reflexivity.
  - rewrite <- IH. f_equal. lia.
Qed.

Lemma fold_max_ge (l : list Z) (y : Z) : y <= fold_left Z.max l y.
Proof.
  revert y. induction l as [| a l IH]; intros y; simpl.
  - lia.
  - specialize (IH (Z.max y a)). lia.
Qed.

Lemma fold_min_init (l : list Z) (x y : Z) :
  fold_left Z.min l (Z.min x y) = Z.min x (fold_left Z.min l y).
Proof.
  revert y. induction l as [| a l IH]; intros y; simpl.
  - reflexivity.
  - rewrite <- IH. f_equal. lia.
Qed.

Lemma fold_min_le (l : list Z) (y : Z) : fold_left Z.min l y <= y.
Proof.
  revert y. induction l as [| a l IH]; intros y; simpl.
  - lia.
  - specialize (IH (Z.min y a)). lia.
Qed.

(** ** The [Chess] object: a legal move followed by [undo] restores it *)

Section GameFacts.

Context {Position : Type} `{RulesEngine Position}.

Lemma game_move_legal (m : Move) (g : Chess Position) :
  In m (legal_moves (current g)) ->
  game_move m g = Some (tt, mkChess (apply_move (current g) m) (current g :: history g)).
Proof.
  intros Hin. unfold game_move.
  destruct (in_dec string_dec m (legal_moves (current g))) as [_ | Hn].
  - reflexivity.
  - contradiction.
Qed.

Lemma game_undo_pushed (p : Position) (g : Chess Position) :
  game_undo (mkChess p (current g :: history g)) = Some (tt, g).
Proof.
  unfold game_undo. simpl. destruct g; reflexivity.
Qed.

Lemma bind_game_moves {A : Type} (k : list Move -> M Position A) (g : Chess Position) :
  bind game_moves k g = k (legal_moves (current g)) g.
Proof. reflexivity. Qed.

Lemma bind_game_turn {A : Type} (k : Color -> M Position A) (g : Chess Position) :
  bind game_turn k g = k (turn_of (current g)) g.
Proof. reflexivity. Qed.

(** One iteration's bracket: [game.move(m)], a computation that leaves the
    object alone, [game.undo()]. *)
Lemma move_run_undo {A B : Type} (m : Move) (c : M Position A) (f : Position -> A)
  (k : A -> M Position B) (g : Chess Position) :
  In m (legal_moves (current g)) ->
  (forall g', c g' = Some (f (current g'), g')) ->
  bind (game_move m) (fun _ => bind c (fun a => bind game_undo (fun _ => k a))) g
  = k (f (apply_move (current g) m)) g.
Proof.
  intros Hin Hc. unfold bind at 1. rewrite (game_move_legal m g Hin).
  unfold bind at 1. rewrite Hc. simpl current.
  unfold bind at 1. rewrite game_undo_pushed. reflexivity.
Qed.

End GameFacts.

(** ** [minimax] restores the object and computes [search] *)

Section AiRun.

Context {Position : Type} `{RulesEngine Position}.

Lemma ai_evaluateBoard_run (g : Chess Position) :
  Ai.evaluateBoard g = Some (Ai.evaluate (board_of (current g)), g).
Proof. reflexivity. Qed.

Lemma ai_max_loop_run (child : number -> number -> M Position Z)
  (pure : number -> number -> Position -> Z) (beta : number) (g : Chess Position) :
  (forall a b g', child a b g' = Some (pure a b (current g'), g')) ->
  forall (moves : list Move) (bestEval : Z) (alpha : number),
    incl moves (legal_moves (current g)) ->
    Ai.max_loop child beta moves bestEval alpha g
    = Some (scan_max true pure beta (current g) moves bestEval alpha, g).
Proof.
  intros Hchild moves.
  induction moves as [| m rest IH]; intros bestEval alpha Hincl.
  - reflexivity.
  - simpl Ai.max_loop. cbv zeta.
    etransitivity.
    { apply (move_run_undo m (child alpha beta) (pure alpha beta)).
      - apply Hincl. now left.
      - apply Hchild. }
    simpl scan_max. cbv zeta.
    destruct (num_leb beta (num_max alpha (Z.max bestEval (pure alpha beta (apply_move (current g) m))))).
    + reflexivity.
    + apply IH. intros x Hx. apply Hincl. now right.
Qed.

Lemma ai_min_loop_run (child : number -> number -> M Position Z)
  (pure : number -> number -> Position -> Z) (alpha : number) (g : Chess Position) :
  (forall a b g', child a b g' = Some (pure a b (current g'), g')) ->
  forall (moves : list Move) (bestEval : Z) (beta : number),
    incl moves (legal_moves (current g)) ->
    Ai.min_loop child alpha moves bestEval beta g
    = Some (scan_min true pure alpha (current g) moves bestEval beta, g).
Proof.
  intros Hchild moves.
  induction moves as [| m rest IH]; intros bestEval beta Hincl.
  - reflexivity.
  - simpl Ai.min_loop. cbv zeta.
    etransitivity.
    { apply (move_run_undo m (child alpha beta) (pure alpha beta)).
      - apply Hincl. now left.
      - apply Hchild. }
    simpl scan_min. cbv zeta.
    destruct (num_leb (num_min beta (Z.min bestEval (pure alpha beta (apply_move (current g) m)))) alpha).
    + reflexivity.
    + apply IH. intros x Hx. apply Hincl. now right.
Qed.

Lemma ai_minimax_run (depth : nat) :
  forall (alpha beta : number) (mx : bool) (g : Chess Position),
    Ai.minimax depth alpha beta mx g = Some (ai_search depth alpha beta mx (current g), g).
Proof.
  induction depth as [| d IH]; intros alpha beta mx g.
  - reflexivity.
  - simpl Ai.minimax. unfold ai_search. simpl search.
    unfold bind at 1. unfold game_isGameOver.
    destruct (is_game_over (current g)).
    + reflexivity.
    + unfold bind at 1. unfold game_moves. destruct mx.
      * apply ai_max_loop_run.
        -- intros a b g'. apply IH.
        -- apply incl_refl.
      * apply ai_min_loop_run.
        -- intros a b g'. apply IH.
        -- apply incl_refl.
Qed.

End AiRun.

Section ChessAIRun.

Context {Position : Type} `{RulesEngine Position}.

Lemma chessai_evaluateBoard_run (g : Chess Position) :
  ChessAI.evaluateBoard g = Some (ChessAI.evaluate (board_of (current g)), g).
Proof. reflexivity. Qed.

Lemma chessai_max_loop_run (child : number -> number -> M Position Z)
  (pure : number -> number -> Position -> Z) (beta : number) (g : Chess Position) :
  (forall a b g', child a b g' = Some (pure a b (current g'), g')) ->
  forall (moves : list Move) (bestEval : Z) (alpha : number),
    incl moves (legal_moves (current g)) ->
    ChessAI.max_loop child beta moves bestEval alpha g
    = Some (scan_max false pure beta (current g) moves bestEval alpha, g).
Proof.
  intros Hchild moves.
  induction moves as [| m rest IH]; intros bestEval alpha Hincl.
  - reflexivity.
  - simpl ChessAI.max_loop.
    etransitivity.
    { apply (move_run_undo m (child alpha beta) (pure alpha beta)).
      - apply Hincl. now left.
      - apply Hchild. }
    simpl scan_max. cbv zeta.
    destruct (num_leb beta (num_max alpha (pure alpha beta (apply_move (current g) m)))).
    + reflexivity.
    + apply IH. intros x Hx. apply Hincl. now right.
Qed.

Lemma chessai_min_loop_run (child : number -> number -> M Position Z)
  (pure : number -> number -> Position -> Z) (alpha : number) (g : Chess Position) :
  (forall a b g', child a b g' = Some (pure a b (current g'), g')) ->
  forall (moves : list Move) (bestEval : Z) (beta : number),
    incl moves (legal_moves (current g)) ->
    ChessAI.min_loop child alpha moves bestEval beta g
    = Some (scan_min false pure alpha (current g) moves bestEval beta, g).
Proof.
  intros Hchild moves.
  induction moves as [| m rest IH]; intros bestEval beta Hincl.
  - reflexivity.
  - simpl ChessAI.min_loop.
    etransitivity.
    { apply (move_run_undo m (child alpha beta) (pure alpha beta)).
      - apply Hincl. now left.
      - apply Hchild. }
    simpl scan_min. cbv zeta.
    destruct (num_leb (num_min beta (pure alpha beta (apply_move (current g) m))) alpha).
    + reflexivity.
    + apply IH. intros x Hx. apply Hincl. now right.
Qed.

Lemma chessai_minimax_run (depth : nat) :
  forall (alpha beta : number) (mx : bool) (g : Chess Position),
    ChessAI.minimax depth alpha beta mx g
    = Some (chessai_search depth alpha beta mx (current g), g).
Proof.
  induction depth as [| d IH]; intros alpha beta mx g.
  - reflexivity.
  - simpl ChessAI.minimax. unfold chessai_search. simpl search.
    unfold bind at 1. unfold game_isGameOver.
    destruct (is_game_over (current g)).
    + reflexivity.
    + unfold bind at 1. unfold game_moves. destruct mx.
      * apply chessai_max_loop_run.
        -- intros a b g'. apply IH.
        -- apply incl_refl.
      * apply chessai_min_loop_run.
        -- intros a b g'. apply IH.
        -- apply incl_refl.
Qed.

End ChessAIRun.

(** ** Pruning does not change the value *)

Section AlphaBeta.

Context {Position : Type} `{RulesEngine Position}.
Variable leaf : Position -> Z.
Variables lo hi : Z.
Variable by_best : bool.

Lemma scan_max_agree (child : number -> number -> Position -> Z) (value : Move -> Z)
  (beta : number) (p : Position) :
  (forall m a, num_lt a beta -> agree a beta (value m) (child a beta (apply_move p m))) ->
  forall (moves : list Move) (bestEval : Z) (alpha : number),
    num_lt alpha beta ->
    bestEval <= scan_max by_best child beta p moves bestEval alpha /\
    agree alpha beta (fold_left Z.max (map value moves) bestEval)
          (scan_max by_best child beta p moves bestEval alpha).
Proof.
  intros Hchild moves.
  induction moves as [| m rest IH]; intros bestEval alpha Hwin.
  - simpl. unfold agree. repeat split; lia.
  - simpl scan_max. cbv zeta. simpl map. simpl fold_left.
    pose proof (Hchild m alpha Hwin) as Hev.
    set (ev := child alpha beta (apply_move p m)) in *.
    rewrite fold_max_init.
    pose proof (fold_max_ge (map value rest) (value m)) as Hge.
    set (rest_value := fold_left Z.max (map value rest) (value m)) in *.
    destruct (num_leb beta (num_max alpha (if by_best then Z.max bestEval ev else ev)))
      eqn:E.
    + apply num_leb_true in E. unfold agree in *.
      destruct alpha, beta, by_best; simpl in *; lia.
    + apply num_leb_false in E.
      destruct (IH (Z.max bestEval ev) _ E) as [Hmono Hrest].
      assert (Hle : value m <= ev).
      { unfold agree in Hev. destruct alpha, beta, by_best; simpl in *; lia. }
      replace (fold_left Z.max (map value rest) (Z.max bestEval ev))
        with (Z.max bestEval (Z.max ev rest_value)) in Hrest.
      2:{ rewrite fold_max_init. f_equal. unfold rest_value.
          rewrite <- fold_max_init. f_equal. lia. }
      set (r := scan_max by_best child beta p rest (Z.max bestEval ev)
                  (num_max alpha (if by_best then Z.max bestEval ev else ev))) in *.
      unfold agree in *.
      destruct alpha, beta, by_best; simpl in *; lia.
Qed.

Lemma scan_min_agree (child : number -> number -> Position -> Z) (value : Move -> Z)
  (alpha : number) (p : Position) :
  (forall m b, num_lt alpha b -> agree alpha b (value m) (child alpha b (apply_move p m))) ->
  forall (moves : list Move) (bestEval : Z) (beta : number),
    num_lt alpha beta ->
    scan_min by_best child alpha p moves bestEval beta <= bestEval /\
    agree alpha beta (fold_left Z.min (map value moves) bestEval)
          (scan_min by_best child alpha p moves bestEval beta).
Proof.
  intros Hchild moves.
  induction moves as [| m rest IH]; intros bestEval beta Hwin.
  - simpl. unfold agree. repeat split; lia.
  - simpl scan_min. cbv zeta. simpl map. simpl fold_left.
    pose proof (Hchild m beta Hwin) as Hev.
    set (ev := child alpha beta (apply_move p m)) in *.
    rewrite fold_min_init.
    pose proof (fold_min_le (map value rest) (value m)) as Hge.
    set (rest_value := fold_left Z.min (map value rest) (value m)) in *.
    destruct (num_leb (num_min beta (if by_best then Z.min bestEval ev else ev)) alpha)
      eqn:E.
    + apply num_leb_true in E. unfold agree in *.
      destruct alpha, beta, by_best; simpl in *; lia.
    + apply num_leb_false in E.
      destruct (IH (Z.min bestEval ev) _ E) as [Hmono Hrest].
      assert (Hle : ev <= value m).
      { unfold agree in Hev. destruct alpha, beta, by_best; simpl in *; lia. }
      replace (fold_left Z.min (map value rest) (Z.min bestEval ev))
        with (Z.min bestEval (Z.min ev rest_value)) in Hrest.
      2:{ rewrite fold_min_init. f_equal. unfold rest_value.
          rewrite <- fold_min_init. f_equal. lia. }
      set (r := scan_min by_best child alpha p rest (Z.min bestEval ev)
                  (num_min beta (if by_best then Z.min bestEval ev else ev))) in *.
      unfold agree in *.
      destruct alpha, beta, by_best; simpl in *; lia.
Qed.

(** The fail-soft contract of the pruned search, for every window. *)
Lemma search_agree (depth : nat) :
  forall (alpha beta : number) (mx : bool) (p : Position),
    num_lt alpha beta ->
    agree alpha beta (unpruned leaf lo hi depth mx p)
          (search leaf lo hi by_best depth alpha beta mx p).
Proof.
  induction depth as [| d IH]; intros alpha beta mx p Hwin.
  - simpl. unfold agree. repeat split; lia.
  - simpl. destruct (is_game_over p).
    + unfold agree. repeat split; lia.
    + destruct mx.
      * apply (scan_max_agree
                 (fun a b => search leaf lo hi by_best d a b (negb true))
                 (fun m => unpruned leaf lo hi d (negb true) (apply_move p m))).
        -- intros m a Ha. apply IH. exact Ha.
        -- exact Hwin.
      * apply (scan_min_agree
                 (fun a b => search leaf lo hi by_best d a b (negb false))
                 (fun m => unpruned leaf lo hi d (negb false) (apply_move p m))).
        -- intros m b Hb. apply IH. exact Hb.
        -- exact Hwin.
Qed.

(** With the full window the pruned search returns the unpruned value. *)
Lemma search_full_window (depth : nat) (mx : bool) (p : Position) :
  search leaf lo hi by_best depth NegInf PosInf mx p = unpruned leaf lo hi depth mx p.
Proof.
  destruct (search_agree depth NegInf PosInf mx p I) as (_ & _ & Hmid).
  apply Hmid; exact I.
Qed.

End AlphaBeta.

(** ** [getBestMove] *)

Section AiSelect.

Context {Position : Type} `{RulesEngine Position}.

(** The selection loop restores the object; what it keeps is what it started
    with or one of the moves it scored. *)
Lemma ai_select_loop_run (depth : nat) (g : Chess Position) :
  forall (moves : list Move) (best : option Move * Z),
    incl moves (legal_moves (current g)) ->
    exists best',
      Ai.select_loop depth moves best g = Some (best', g) /\
      (fst best' = fst best \/ exists m, fst best' = Some m /\ In m moves).
Proof.
  induction moves as [| m rest IH]; intros best Hincl.
  - exists best. split; [reflexivity | now left].
  - destruct best as [bestMove bestValue].
    simpl Ai.select_loop. unfold bind at 1.
    rewrite game_move_legal by (apply Hincl; now left).
    unfold bind at 1. unfold game_turn at 1. simpl current.
    unfold bind at 1. rewrite ai_minimax_run. simpl current.
    unfold bind at 1. unfold game_turn at 1. simpl current.
    cbv zeta. unfold bind at 1. rewrite game_undo_pushed.
    assert (Hrest : incl rest (legal_moves (current g))).
    { intros x Hx. apply Hincl. now right. }
    match goal with
    | |- exists b, Ai.select_loop depth rest ?next g = _ /\ _ =>
        destruct (IH next Hrest) as (best' & Hrun & Hkept);
          assert (Hnext : fst next = bestMove \/ fst next = Some m)
    end.
    { destruct (color_eqb _ Black).
      - destruct (_ <? _); simpl; auto.
      - destruct bestMove; [destruct (_ <? _) |]; simpl; auto. }
    exists best'. split; [exact Hrun |].
    destruct Hkept as [Hsame | (m' & Hm' & Hin)].
    + destruct Hnext as [Hn | Hn].
      * left. simpl. congruence.
      * right. exists m. split; [congruence | now left].
    + right. exists m'. split; [exact Hm' | now right].
Qed.

Lemma ai_getBestMove_run (rnd : Random) (difficulty : Difficulty) (g : Chess Position) :
  exists r,
    Ai.getBestMove rnd difficulty g = Some (r, g) /\
    (legal_moves (current g) = [] -> r = None) /\
    (legal_moves (current g) <> [] -> exists m, r = Some m /\ In m (legal_moves (current g))).
Proof.
  unfold Ai.getBestMove, bind at 1, game_moves.
  destruct (legal_moves (current g)) as [| m0 rest] eqn:Hmoves.
  - exists None. split; [reflexivity |].
    split; [reflexivity | intros Hne; now contradiction Hne].
  - assert (Hrandom : exists m, nth_error (m0 :: rest)
                                  (random_index rnd (List.length (m0 :: rest))) = Some m
                                /\ In m (m0 :: rest)).
    { destruct (nth_error (m0 :: rest) (random_index rnd (List.length (m0 :: rest))))
        as [m |] eqn:E.
      - exists m. split; [reflexivity | eapply nth_error_In; exact E].
      - apply nth_error_None in E.
        pose proof (random_index_lt rnd (List.length (m0 :: rest))) as Hlt.
        simpl in *. lia. }
    assert (Hsearch : forall depth, exists r,
               bind (Ai.select_loop depth (shuffle rnd (m0 :: rest)) (None, -9999))
                    (fun best => if Ai.falsy (fst best)
                                 then ret (nth_error (shuffle rnd (m0 :: rest)) 0)
                                 else ret (fst best)) g = Some (r, g)
               /\ exists m, r = Some m /\ In m (m0 :: rest)).
    { intros depth.
      pose proof (shuffle_perm rnd (m0 :: rest)) as Hperm.
      destruct (ai_select_loop_run depth g (shuffle rnd (m0 :: rest)) (None, -9999))
        as (best & Hrun & Hkept).
      { intros x Hx. rewrite Hmoves.
        eapply Permutation_in; [apply Permutation_sym; exact Hperm | exact Hx]. }
      unfold bind. rewrite Hrun.
      destruct (Ai.falsy (fst best)) eqn:Hfalsy.
      - destruct (shuffle rnd (m0 :: rest)) as [| s0 srest] eqn:Hshuffled.
        + apply Permutation_sym, Permutation_nil in Hperm. discriminate.
        + exists (Some s0). split; [reflexivity |].
          exists s0. split; [reflexivity |].
          eapply Permutation_in; [apply Permutation_sym; exact Hperm | now left].
      - exists (fst best). split; [reflexivity |].
        destruct Hkept as [Hnone | (m & Hm & Hin)].
        + simpl in Hnone. rewrite Hnone in Hfalsy. discriminate.
        + exists m. split; [exact Hm |].
          eapply Permutation_in; [apply Permutation_sym; exact Hperm | exact Hin]. }
    destruct difficulty.
    + destruct Hrandom as (m & Hm & Hin).
      exists (Some m). unfold ret. rewrite Hm.
      split; [reflexivity |].
      split; [discriminate | intros _; exists m; auto].
    + destruct (Hsearch (Ai.depth_of Easy)) as (r & Hr & Hm).
      exists r. split; [exact Hr |].
      split; [discriminate | intros _; exact Hm].
    + destruct (Hsearch (Ai.depth_of Hard)) as (r & Hr & Hm).
      exists r. split; [exact Hr |].
      split; [discriminate | intros _; exact Hm].
    + destruct (Hsearch (Ai.depth_of Master)) as (r & Hr & Hm).
      exists r. split; [exact Hr |].
      split; [discriminate | intros _; exact Hm].
Qed.

End AiSelect.

Section ChessAISelect.

Context {Position : Type} `{RulesEngine Position}.

(** The first scoring loop restores the object and cannot throw. *)
Lemma chessai_first_loop_run (depth : nat) (isWhite : bool) (g : Chess Position) :
  forall (moves : list Move) (best : option Move * Z),
    incl moves (legal_moves (current g)) ->
    exists best', ChessAI.first_loop depth isWhite moves best g = Some (best', g).
Proof.
  induction moves as [| m rest IH]; intros best Hincl.
  - exists best. reflexivity.
  - simpl ChessAI.first_loop.
    rewrite (move_run_undo m _ (chessai_search (depth - 1) (Fin (-100000)) (Fin 100000)
                                  (negb isWhite))).
    + apply IH. intros x Hx. apply Hincl. now right.
    + apply Hincl. now left.
    + intros g'. apply chessai_minimax_run.
Qed.

(** So does the re-run loop; what it keeps is what it started with or one of
    the moves it scored. *)
Lemma chessai_rerun_loop_run (depth : nat) (isWhite : bool) (g : Chess Position) :
  forall (moves : list Move) (best : option Move * number),
    incl moves (legal_moves (current g)) ->
    exists best',
      ChessAI.rerun_loop depth isWhite moves best g = Some (best', g) /\
      (fst best' = fst best \/ exists m, fst best' = Some m /\ In m moves).
Proof.
  induction moves as [| m rest IH]; intros best Hincl.
  - exists best. split; [reflexivity | now left].
  - simpl ChessAI.rerun_loop.
    rewrite (move_run_undo m _ (chessai_search (depth - 1) NegInf PosInf (negb isWhite))).
    + assert (Hrest : incl rest (legal_moves (current g))).
      { intros x Hx. apply Hincl. now right. }
      match goal with
      | |- exists b, ChessAI.rerun_loop depth isWhite rest ?next g = _ /\ _ =>
          destruct (IH next Hrest) as (best' & Hrun & Hkept);
            assert (Hnext : fst next = fst best \/ fst next = Some m)
      end.
      { repeat match goal with
               | |- context [if ?c then _ else _] => destruct c
               end; simpl; auto. }
      exists best'. split; [exact Hrun |].
      destruct Hkept as [Hsame | (m' & Hm' & Hin)].
      * destruct Hnext as [Hn | Hn].
        -- left. congruence.
        -- right. exists m. split; [congruence | now left].
      * right. exists m'. split; [exact Hm' | now right].
    + apply Hincl. now left.
    + intros g'. apply chessai_minimax_run.
Qed.

Lemma chessai_getBestMove_run (rnd : Random) (difficulty : Difficulty) (g : Chess Position) :
  exists r,
    ChessAI.getBestMove rnd difficulty g = Some (r, g) /\
    (legal_moves (current g) = [] -> r = None) /\
    (legal_moves (current g) <> [] -> exists m, r = Some m /\ In m (legal_moves (current g))).
Proof.
  unfold ChessAI.getBestMove, bind at 1, game_moves.
  destruct (legal_moves (current g)) as [| m0 rest] eqn:Hmoves.
  - exists None. split; [reflexivity |].
    split; [reflexivity | intros Hne; now contradiction Hne].
  - assert (Hsearch : forall depth, exists r,
               bind game_turn
                 (fun t =>
                    bind (ChessAI.first_loop depth (color_eqb t White) (m0 :: rest) (None, -99999))
                      (fun _ =>
                         bind (ChessAI.rerun_loop depth (color_eqb t White) (m0 :: rest)
                                 (nth_error (m0 :: rest) 0,
                                  if color_eqb t White then NegInf else PosInf))
                           (fun best => ret (fst best)))) g = Some (r, g)
               /\ exists m, r = Some m /\ In m (m0 :: rest)).
    { intros depth. unfold bind at 1, game_turn.
      set (isWhite := color_eqb (turn_of (current g)) White).
      assert (Hall : incl (m0 :: rest) (legal_moves (current g))).
      { rewrite Hmoves. apply incl_refl. }
      destruct (chessai_first_loop_run depth isWhite g (m0 :: rest) (None, -99999) Hall)
        as (first & Hfirst).
      destruct (chessai_rerun_loop_run depth isWhite g (m0 :: rest)
                  (nth_error (m0 :: rest) 0, if isWhite then NegInf else PosInf) Hall)
        as (best & Hrun & Hkept).
      unfold bind at 1. rewrite Hfirst. unfold bind. rewrite Hrun.
      exists (fst best). split; [reflexivity |].
      destruct Hkept as [Hhead | (m & Hm & Hin)].
      - exists m0. split; [exact Hhead | now left].
      - exists m. split; [exact Hm | exact Hin]. }
    destruct difficulty.
    + destruct (nth_error (m0 :: rest) (random_index rnd (List.length (m0 :: rest))))
        as [m |] eqn:E.
      * exists (Some m). unfold ret.
        split; [reflexivity |].
        split; [discriminate | intros _; exists m; split; [reflexivity |]].
        eapply nth_error_In; exact E.
      * apply nth_error_None in E.
        pose proof (random_index_lt rnd (List.length (m0 :: rest))) as Hlt.
        simpl in *. lia.
    + destruct (Hsearch (ChessAI.depth_of Easy)) as (r & Hr & Hm).
      exists r. split; [exact Hr |].
      split; [discriminate | intros _; exact Hm].
    + destruct (Hsearch (ChessAI.depth_of Hard)) as (r & Hr & Hm).
      exists r. split; [exact Hr |].
      split; [discriminate | intros _; exact Hm].
    + destruct (Hsearch (ChessAI.depth_of Master)) as (r & Hr & Hm).
      exists r. split; [exact Hr |].
      split; [discriminate | intros _; exact Hm].
Qed.

(** Running the first loop before a computation changes nothing. *)
Lemma chessai_first_loop_skip {A : Type} (depth : nat) (isWhite : bool) (moves : list Move)
  (k : M Position A) (g : Chess Position) :
  incl moves (legal_moves (current g)) ->
  bind (ChessAI.first_loop depth isWhite moves (None, -99999)) (fun _ => k) g = k g.
Proof.
  intros Hincl.
  destruct (chessai_first_loop_run depth isWhite g moves (None, -99999) Hincl)
    as (best & Hrun).
  unfold bind. rewrite Hrun. reflexivity.
Qed.

End ChessAISelect.

(** ** The evaluators *)

Lemma or_zero_nth_error (l : list Z) (n : nat) : or_zero (nth_error l n) = nth n l 0.
Proof.
  revert n. induction l as [| a l IH]; intros [| n]; simpl; auto.
Qed.

Lemma sum_Z_app (l1 l2 : list Z) : sum_Z (l1 ++ l2) = sum_Z l1 + sum_Z l2.
Proof.
  induction l1 as [| a l1 IH]; simpl; [reflexivity | rewrite IH; lia].
Qed.

Lemma sum_Z_flat_map {A B : Type} (f : B -> Z) (g : A -> list B) (l : list A) :
  sum_Z (map f (flat_map g l)) = sum_Z (map (fun a => sum_Z (map f (g a))) l).
Proof.
  induction l as [| a l IH]; simpl; [reflexivity |].
  now rewrite map_app, sum_Z_app, IH.
Qed.

Lemma fold_left_terms {A : Type} (step : A -> Z -> Z) (term : A -> Z) (l : list A) :
  (forall a t, step a t = t + term a) ->
  forall t, fold_left (fun t a => step a t) l t = t + sum_Z (map term l).
Proof.
  intros Hstep. induction l as [| a l IH]; intros t; simpl.
  - lia.
  - rewrite IH, Hstep. lia.
Qed.

Lemma ai_add_square_term (board : Board) (i j : nat) (t : Z) :
  Ai.add_square board i j t = t + ai_term board i j.
Proof.
  unfold Ai.add_square, ai_term.
  destruct (square board i j) as [[[] []] |]; simpl; lia.
Qed.

Lemma chessai_add_square_term (board : Board) (i j : nat) (t : Z) :
  ChessAI.add_square board i j t = t + chessai_term board i j.
Proof.
  unfold ChessAI.add_square, chessai_term, ChessAI.posScore, bonus, ChessAI.pst_lookup.
  destruct (square board i j) as [[[] []] |]; cbn [ptype pcolor ChessAI.PST color_eqb sign
    material table_index PIECE_VALUES or_zero]; rewrite ?or_zero_nth_error; lia.
Qed.

Lemma ai_evaluate_grid (board : Board) : Ai.evaluate board = grid_sum (ai_term board).
Proof.
  unfold Ai.evaluate, grid_sum.
  rewrite (fold_left_terms (fun i t => fold_left (fun t j => Ai.add_square board i j t)
                                         (seq 0 8) t)
             (fun i => sum_Z (map (ai_term board i) (seq 0 8)))).
  - lia.
  - intros i t. apply fold_left_terms. intros j t'. apply ai_add_square_term.
Qed.

Lemma chessai_evaluate_grid (board : Board) :
  ChessAI.evaluate board = grid_sum (chessai_term board).
Proof.
  unfold ChessAI.evaluate, grid_sum.
  rewrite (fold_left_terms (fun i t => fold_left (fun t j => ChessAI.add_square board i j t)
                                         (seq 0 8) t)
             (fun i => sum_Z (map (chessai_term board i) (seq 0 8)))).
  - lia.
  - intros i t. apply fold_left_terms. intros j t'. apply chessai_add_square_term.
Qed.

Lemma pieces_sum (f : nat * nat * Piece -> Z) (term : nat -> nat -> Z) (board : Board) :
  (forall i j,
      term i j = match square board i j with
                 | Some piece => f (i, j, piece)
                 | None => 0
                 end) ->
  sum_Z (map f (pieces_of board)) = grid_sum term.
Proof.
  intros Hterm. unfold pieces_of, grid_sum.
  rewrite sum_Z_flat_map. f_equal. apply map_ext. intros i.
  rewrite sum_Z_flat_map. f_equal. apply map_ext. intros j.
  rewrite Hterm. destruct (square board i j); simpl; lia.
Qed.

Lemma ai_evaluate_material (board : Board) : Ai.evaluate board = material_only board.
Proof.
  rewrite ai_evaluate_grid. unfold material_only. symmetry.
  apply pieces_sum. intros i j. reflexivity.
Qed.

Lemma chessai_evaluate_material (board : Board) :
  ChessAI.evaluate board = material_and_position board.
Proof.
  rewrite chessai_evaluate_grid. unfold material_and_position. symmetry.
  apply pieces_sum. intros i j. reflexivity.
Qed.

(** *** Mirroring *)

Lemma square_mirror (board : Board) (i j : nat) :
  List.length board = 8%nat -> (i < 8)%nat ->
  square (mirror_board board) i j = swap_side (square board (7 - i) j).
Proof.
  intros Hlen Hi. unfold square, mirror_board.
  change (@nil (option Piece)) with (map swap_side []) at 1.
  rewrite map_nth.
  change (@None Piece) with (swap_side None) at 1.
  rewrite map_nth. f_equal. f_equal.
  rewrite rev_nth by lia. f_equal. lia.
Qed.

Lemma sign_opposite (c : Color) : sign (opposite c) = - sign c.
Proof. destruct c; reflexivity. Qed.

Lemma table_index_opposite (c : Color) (i j : nat) :
  (i < 8)%nat -> table_index (opposite c) i j = table_index c (7 - i) j.
Proof.
  intros Hi. destruct c; unfold table_index, opposite; lia.
Qed.

Lemma ai_term_mirror (board : Board) (i j : nat) :
  List.length board = 8%nat -> (i < 8)%nat ->
  ai_term (mirror_board board) i j = - ai_term board (7 - i) j.
Proof.
  intros Hlen Hi. unfold ai_term. rewrite square_mirror by assumption.
  destruct (square board (7 - i) j) as [[t c] |]; [| reflexivity].
  unfold swap_side. cbn [ptype pcolor].
  rewrite sign_opposite. ring.
Qed.

Lemma chessai_term_mirror (board : Board) (i j : nat) :
  List.length board = 8%nat -> (i < 8)%nat ->
  chessai_term (mirror_board board) i j = - chessai_term board (7 - i) j.
Proof.
  intros Hlen Hi. unfold chessai_term. rewrite square_mirror by assumption.
  destruct (square board (7 - i) j) as [[t c] |]; [| reflexivity].
  unfold swap_side, bonus. cbn [ptype pcolor].
  rewrite sign_opposite, !table_index_opposite by assumption. ring.
Qed.

Lemma grid_sum_flip (t1 t2 : nat -> nat -> Z) :
  (forall i j, (i < 8)%nat -> t2 i j = - t1 (7 - i)%nat j) ->
  grid_sum t2 = - grid_sum t1.
Proof.
  intros Hflip. unfold grid_sum. simpl.
  rewrite !Hflip by lia. simpl Nat.sub. lia.
Qed.

Lemma ai_evaluate_mirror (board : Board) :
  List.length board = 8%nat -> Ai.evaluate (mirror_board board) = - Ai.evaluate board.
Proof.
  intros Hlen. rewrite !ai_evaluate_grid. apply grid_sum_flip.
  intros i j Hi. now apply ai_term_mirror.
Qed.

Lemma chessai_evaluate_mirror (board : Board) :
  List.length board = 8%nat ->
  ChessAI.evaluate (mirror_board board) = - ChessAI.evaluate board.
Proof.
  intros Hlen. rewrite !chessai_evaluate_grid. apply grid_sum_flip.
  intros i j Hi. now apply chessai_term_mirror.
Qed.

(** ** Which candidate the re-run loop keeps *)

Section ChessAIDirection.

Context {Position : Type} `{RulesEngine Position}.

Lemma chessai_rerun_loop_cons (depth : nat) (isWhite : bool) (m : Move) (rest : list Move)
  (best : option Move * number) (g : Chess Position) :
  incl (m :: rest) (legal_moves (current g)) ->
  ChessAI.rerun_loop depth isWhite (m :: rest) best g
  = ChessAI.rerun_loop depth isWhite rest
      (if isWhite
       then if num_ltb (snd best) (Fin (rerun_score depth isWhite (current g) m))
            then (Some m, Fin (rerun_score depth isWhite (current g) m)) else best
       else if num_ltb (Fin (rerun_score depth isWhite (current g) m)) (snd best)
            then (Some m, Fin (rerun_score depth isWhite (current g) m)) else best) g.
Proof.
  intros Hincl.
  change (ChessAI.rerun_loop depth isWhite (m :: rest) best g)
    with (bind (game_move m)
            (fun _ => bind (ChessAI.minimax (depth - 1) NegInf PosInf (negb isWhite))
               (fun val => bind game_undo
                  (fun _ => ChessAI.rerun_loop depth isWhite rest
                     (if isWhite
                      then if num_ltb (snd best) (Fin val) then (Some m, Fin val) else best
                      else if num_ltb (Fin val) (snd best) then (Some m, Fin val) else best))))
            g).
  rewrite (move_run_undo m _ (chessai_search (depth - 1) NegInf PosInf (negb isWhite)))
    by (first [apply Hincl; now left | intros g'; apply chessai_minimax_run]).
  reflexivity.
Qed.

(** For Black the loop keeps a candidate of lowest score. *)
Lemma chessai_rerun_loop_black (depth : nat) (g : Chess Position) :
  forall (moves : list Move) (bestMoveFound : option Move) (bestValFound : number),
    incl moves (legal_moves (current g)) ->
    exists bestMove' bestVal',
      ChessAI.rerun_loop depth false moves (bestMoveFound, bestValFound) g
      = Some ((bestMove', bestVal'), g) /\
      num_le bestVal' bestValFound /\
      (forall m, In m moves -> num_le bestVal' (Fin (rerun_score depth false (current g) m))) /\
      ((bestMove', bestVal') = (bestMoveFound, bestValFound) \/
       exists m, In m moves /\ bestMove' = Some m /\
                 bestVal' = Fin (rerun_score depth false (current g) m)).
Proof.
  induction moves as [| m rest IH]; intros bestMoveFound bestValFound Hincl.
  - exists bestMoveFound, bestValFound.
    split; [reflexivity |]. split; [destruct bestValFound; simpl; auto; lia |].
    split; [intros m [] | now left].
  - rewrite chessai_rerun_loop_cons by exact Hincl.
    set (val := rerun_score depth false (current g) m).
    assert (Hrest : incl rest (legal_moves (current g))).
    { intros x Hx. apply Hincl. now right. }
    cbn [snd].
    destruct (num_ltb (Fin val) bestValFound) eqn:Hlt.
    + apply num_ltb_true in Hlt.
      destruct (IH (Some m) (Fin val) Hrest) as (bm & bv & Hrun & Hle & Hall & Hkept).
      exists bm, bv. split; [exact Hrun |].
      split; [destruct bv, bestValFound; simpl in *; auto; lia |].
      split.
      * intros m' [<- | Hin]; [exact Hle | now apply Hall].
      * right. destruct Hkept as [Heq | (m' & Hin & Hm' & Hv')].
        -- injection Heq as -> ->. exists m. split; [now left | split; reflexivity].
        -- exists m'. split; [now right | split; assumption].
    + apply num_ltb_false in Hlt.
      destruct (IH bestMoveFound bestValFound Hrest) as (bm & bv & Hrun & Hle & Hall & Hkept).
      exists bm, bv. split; [exact Hrun |]. split; [exact Hle |].
      split.
      * intros m' [<- | Hin]; [| now apply Hall].
        fold val. destruct bv, bestValFound; simpl in *; auto; lia.
      * destruct Hkept as [Heq | (m' & Hin & Hm' & Hv')]; [now left |].
        right. exists m'. split; [now right | split; assumption].
Qed.

(** For White it keeps a candidate of highest score. *)
Lemma chessai_rerun_loop_white (depth : nat) (g : Chess Position) :
  forall (moves : list Move) (bestMoveFound : option Move) (bestValFound : number),
    incl moves (legal_moves (current g)) ->
    exists bestMove' bestVal',
      ChessAI.rerun_loop depth true moves (bestMoveFound, bestValFound) g
      = Some ((bestMove', bestVal'), g) /\
      num_le bestValFound bestVal' /\
      (forall m, In m moves -> num_le (Fin (rerun_score depth true (current g) m)) bestVal') /\
      ((bestMove', bestVal') = (bestMoveFound, bestValFound) \/
       exists m, In m moves /\ bestMove' = Some m /\
                 bestVal' = Fin (rerun_score depth true (current g) m)).
Proof.
  induction moves as [| m rest IH]; intros bestMoveFound bestValFound Hincl.
  - exists bestMoveFound, bestValFound.
    split; [reflexivity |]. split; [destruct bestValFound; simpl; auto; lia |].
    split; [intros m [] | now left].
  - rewrite chessai_rerun_loop_cons by exact Hincl.
    set (val := rerun_score depth true (current g) m).
    assert (Hrest : incl rest (legal_moves (current g))).
    { intros x Hx. apply Hincl. now right. }
    cbn [snd].
    destruct (num_ltb bestValFound (Fin val)) eqn:Hlt.
    + apply num_ltb_true in Hlt.
      destruct (IH (Some m) (Fin val) Hrest) as (bm & bv & Hrun & Hle & Hall & Hkept).
      exists bm, bv. split; [exact Hrun |].
      split; [destruct bv, bestValFound; simpl in *; auto; lia |].
      split.
      * intros m' [<- | Hin]; [exact Hle | now apply Hall].
      * right. destruct Hkept as [Heq | (m' & Hin & Hm' & Hv')].
        -- injection Heq as -> ->. exists m. split; [now left | split; reflexivity].
        -- exists m'. split; [now right | split; assumption].
    + apply num_ltb_false in Hlt.
      destruct (IH bestMoveFound bestValFound Hrest) as (bm & bv & Hrun & Hle & Hall & Hkept).
      exists bm, bv. split; [exact Hrun |]. split; [exact Hle |].
      split.
      * intros m' [<- | Hin]; [| now apply Hall].
        fold val. destruct bv, bestValFound; simpl in *; auto; lia.
      * destruct Hkept as [Heq | (m' & Hin & Hm' & Hv')]; [now left |].
        right. exists m'. split; [now right | split; assumption].
Qed.

(** At a searching tier [ChessAI.getBestMove] returns, for White, a
    candidate of highest score and, for Black, one of lowest score, the score
    being what [minimax] returns on the position after the candidate. *)
Lemma chessai_getBestMove_direction (rnd : Random) (difficulty : Difficulty)
  (g : Chess Position) :
  difficulty <> Beginner ->
  legal_moves (current g) <> [] ->
  exists m,
    ChessAI.getBestMove rnd difficulty g = Some (Some m, g) /\
    In m (legal_moves (current g)) /\
    forall m', In m' (legal_moves (current g)) ->
      let score := rerun_score (ChessAI.depth_of difficulty)
                     (color_eqb (turn_of (current g)) White) (current g) in
      if color_eqb (turn_of (current g)) White
      then score m' <= score m
      else score m <= score m'.
Proof.
  intros Hsearching Hmoves.
  assert (Hgeneral : forall depth, exists m,
             bind game_turn
               (fun t =>
                  bind (ChessAI.first_loop depth (color_eqb t White)
                          (legal_moves (current g)) (None, -99999))
                    (fun _ =>
                       bind (ChessAI.rerun_loop depth (color_eqb t White)
                               (legal_moves (current g))
                               (nth_error (legal_moves (current g)) 0,
                                if color_eqb t White then NegInf else PosInf))
                         (fun best => ret (fst best)))) g = Some (Some m, g) /\
             In m (legal_moves (current g)) /\
             forall m', In m' (legal_moves (current g)) ->
               let score := rerun_score depth (color_eqb (turn_of (current g)) White)
                              (current g) in
               if color_eqb (turn_of (current g)) White
               then score m' <= score m
               else score m <= score m').
  { intros depth. rewrite bind_game_turn.
    rewrite chessai_first_loop_skip by apply incl_refl.
    assert (Hhead : exists m0, In m0 (legal_moves (current g))).
    { destruct (legal_moves (current g)) as [| m0 rest];
        [now contradiction Hmoves | exists m0; now left]. }
    destruct Hhead as (m0 & Hin0).
    destruct (color_eqb (turn_of (current g)) White).
    - destruct (chessai_rerun_loop_white depth g (legal_moves (current g))
                  (nth_error (legal_moves (current g)) 0) NegInf (incl_refl _))
        as (bm & bv & Hrun & _ & Hall & Hkept).
      destruct Hkept as [Heq | (m & Hin & Hm & Hv)].
      + injection Heq as -> ->. exfalso. exact (Hall m0 Hin0).
      + exists m. unfold bind. rewrite Hrun. subst bm bv.
        split; [reflexivity |]. split; [exact Hin |].
        intros m' Hin'. exact (Hall m' Hin').
    - destruct (chessai_rerun_loop_black depth g (legal_moves (current g))
                  (nth_error (legal_moves (current g)) 0) PosInf (incl_refl _))
        as (bm & bv & Hrun & _ & Hall & Hkept).
      destruct Hkept as [Heq | (m & Hin & Hm & Hv)].
      + injection Heq as -> ->. exfalso. exact (Hall m0 Hin0).
      + exists m. unfold bind. rewrite Hrun. subst bm bv.
        split; [reflexivity |]. split; [exact Hin |].
        intros m' Hin'. exact (Hall m' Hin'). }
  unfold ChessAI.getBestMove. rewrite bind_game_moves.
  remember (legal_moves (current g)) as moves eqn:Hlist in |- *.
  destruct moves as [| m0 rest]; [now contradiction Hmoves |].
  rewrite Hlist.
  destruct difficulty; [now contradiction Hsearching | | |]; apply Hgeneral.
Qed.

(** At [Easy] the score of a candidate is the negated evaluation of the
    position after it: Black is given the move after which White's
    evaluation is highest, and White the move after which it is lowest. *)
Lemma chessai_easy_picks_the_worst (rnd : Random) (g : Chess Position) :
  legal_moves (current g) <> [] ->
  exists m,
    ChessAI.getBestMove rnd Easy g = Some (Some m, g) /\
    In m (legal_moves (current g)) /\
    forall m', In m' (legal_moves (current g)) ->
      let value m := ChessAI.evaluate (board_of (apply_move (current g) m)) in
      match turn_of (current g) with
      | White => value m <= value m'
      | Black => value m' <= value m
      end.
Proof.
  intros Hmoves.
  destruct (chessai_getBestMove_direction rnd Easy g) as (m & Hrun & Hin & Hbest);
    [discriminate | exact Hmoves |].
  exists m. split; [exact Hrun |]. split; [exact Hin |].
  intros m' Hin'. specialize (Hbest m' Hin'). cbv zeta in *.
  unfold rerun_score, chessai_search in Hbest. simpl in Hbest.
  unfold chessai_leaf in Hbest.
  destruct (turn_of (current g)); simpl in Hbest; lia.
Qed.

End ChessAIDirection.

(** ** Which candidate the selection loop of [Ai] keeps for Black *)

Section AiDirection.

Context {Position : Type} `{RulesEngine Position}.

Lemma ai_select_loop_cons (depth : nat) (m : Move) (rest : list Move)
  (bestMove : option Move) (bestValue : Z) (g : Chess Position) :
  incl (m :: rest) (legal_moves (current g)) ->
  turn_of (apply_move (current g) m) = White ->
  Ai.select_loop depth (m :: rest) (bestMove, bestValue) g
  = Ai.select_loop depth rest
      (match bestMove with
       | None => (Some m, select_score depth (current g) m)
       | Some _ =>
           if select_score depth (current g) m <? bestValue
           then (Some m, select_score depth (current g) m)
           else (bestMove, bestValue)
       end) g.
Proof.
  intros Hincl Hturn.
  simpl Ai.select_loop. unfold bind at 1.
  rewrite game_move_legal by (apply Hincl; now left).
  rewrite bind_game_turn. simpl current. rewrite Hturn.
  unfold bind at 1. rewrite ai_minimax_run. simpl current.
  rewrite bind_game_turn. simpl current. rewrite Hturn.
  cbv zeta. unfold bind at 1. rewrite game_undo_pushed.
  reflexivity.
Qed.

Lemma ai_select_loop_black (depth : nat) (g : Chess Position) :
  (forall m, In m (legal_moves (current g)) -> turn_of (apply_move (current g) m) = White) ->
  forall (moves : list Move) (bestMove : option Move) (bestValue : Z),
    incl moves (legal_moves (current g)) ->
    exists bestMove' bestValue',
      Ai.select_loop depth moves (bestMove, bestValue) g
      = Some ((bestMove', bestValue'), g) /\
      (bestMove <> None -> bestValue' <= bestValue) /\
      (forall m, In m moves -> bestValue' <= select_score depth (current g) m) /\
      ((bestMove', bestValue') = (bestMove, bestValue) \/
       exists m, In m moves /\ bestMove' = Some m /\
                 bestValue' = select_score depth (current g) m).
Proof.
  intros Hturn.
  induction moves as [| m rest IH]; intros bestMove bestValue Hincl.
  - exists bestMove, bestValue.
    split; [reflexivity |]. split; [lia |].
    split; [intros m [] | now left].
  - rewrite ai_select_loop_cons by (first [exact Hincl | apply Hturn, Hincl; now left]).
    set (val := select_score depth (current g) m).
    assert (Hrest : incl rest (legal_moves (current g))).
    { intros x Hx. apply Hincl. now right. }
    assert (Hupdate : forall bm bv,
               Ai.select_loop depth rest (Some m, val) g = Some ((bm, bv), g) ->
               (Some m <> None -> bv <= val) ->
               (forall m', In m' rest -> bv <= select_score depth (current g) m') ->
               ((bm, bv) = (Some m, val) \/
                exists m', In m' rest /\ bm = Some m' /\
                           bv = select_score depth (current g) m') ->
               (forall m', In m' (m :: rest) -> bv <= select_score depth (current g) m') /\
               exists m', In m' (m :: rest) /\ bm = Some m' /\
                          bv = select_score depth (current g) m').
    { intros bm bv _ Hle Hall Hkept.
      specialize (Hle ltac:(discriminate)). split.
      - intros m' [<- | Hin]; [exact Hle | now apply Hall].
      - destruct Hkept as [Heq | (m' & Hin & Hm' & Hv')].
        + injection Heq as -> ->. exists m. split; [now left | split; reflexivity].
        + exists m'. split; [now right | split; assumption]. }
    destruct bestMove as [b |].
    + destruct (Z.ltb_spec val bestValue) as [Hlt | Hge].
      * destruct (IH (Some m) val Hrest) as (bm & bv & Hrun & Hle & Hall & Hkept).
        destruct (Hupdate bm bv Hrun Hle Hall Hkept) as (Hall' & Hkept').
        exists bm, bv. split; [exact Hrun |].
        split; [intros _; specialize (Hle ltac:(discriminate)); lia |].
        split; [exact Hall' | right; exact Hkept'].
      * destruct (IH (Some b) bestValue Hrest) as (bm & bv & Hrun & Hle & Hall & Hkept).
        specialize (Hle ltac:(discriminate)).
        exists bm, bv. split; [exact Hrun |]. split; [intros _; exact Hle |].
        split.
        -- intros m' [<- | Hin]; [fold val; lia | now apply Hall].
        -- destruct Hkept as [Heq | (m' & Hin & Hm' & Hv')]; [now left |].
           right. exists m'. split; [now right | split; assumption].
    + destruct (IH (Some m) val Hrest) as (bm & bv & Hrun & Hle & Hall & Hkept).
      destruct (Hupdate bm bv Hrun Hle Hall Hkept) as (Hall' & Hkept').
      exists bm, bv. split; [exact Hrun |].
      split; [intros Hnone; now contradiction Hnone |].
      split; [exact Hall' | right; exact Hkept'].
Qed.

(** With Black to move, at a searching tier [Ai.getBestMove] returns a
    candidate of lowest score. *)
Lemma ai_getBestMove_black (rnd : Random) (difficulty : Difficulty) (g : Chess Position) :
  difficulty <> Beginner ->
  legal_moves (current g) <> [] ->
  ~ In EmptyString (legal_moves (current g)) ->
  (forall m, In m (legal_moves (current g)) -> turn_of (apply_move (current g) m) = White) ->
  exists m,
    Ai.getBestMove rnd difficulty g = Some (Some m, g) /\
    In m (legal_moves (current g)) /\
    forall m', In m' (legal_moves (current g)) ->
      select_score (Ai.depth_of difficulty) (current g) m
      <= select_score (Ai.depth_of difficulty) (current g) m'.
Proof.
  intros Hsearching Hmoves Hnonempty Hturn.
  pose proof (shuffle_perm rnd (legal_moves (current g))) as Hperm.
  assert (Hto : incl (shuffle rnd (legal_moves (current g))) (legal_moves (current g))).
  { intros x Hx. eapply Permutation_in; [apply Permutation_sym; exact Hperm | exact Hx]. }
  assert (Hfrom : incl (legal_moves (current g)) (shuffle rnd (legal_moves (current g)))).
  { intros x Hx. eapply Permutation_in; [exact Hperm | exact Hx]. }
  assert (Hgeneral : forall depth, exists m,
             bind (Ai.select_loop depth (shuffle rnd (legal_moves (current g))) (None, -9999))
                  (fun best => if Ai.falsy (fst best)
                               then ret (nth_error (shuffle rnd (legal_moves (current g))) 0)
                               else ret (fst best)) g = Some (Some m, g) /\
             In m (legal_moves (current g)) /\
             forall m', In m' (legal_moves (current g)) ->
               select_score depth (current g) m <= select_score depth (current g) m').
  { intros depth.
    destruct (ai_select_loop_black depth g Hturn (shuffle rnd (legal_moves (current g)))
                None (-9999) Hto) as (bm & bv & Hrun & _ & Hall & Hkept).
    destruct Hkept as [Heq | (m & Hin & Hm & Hv)].
    - injection Heq as -> ->. exfalso.
      assert (Hhead : exists m0, In m0 (legal_moves (current g))).
      { destruct (legal_moves (current g)) as [| m0 rest];
          [now contradiction Hmoves | exists m0; now left]. }
      destruct Hhead as (m0 & Hin0). apply Hfrom in Hin0.
      remember (shuffle rnd (legal_moves (current g))) as shuffled eqn:Hshuffled.
      destruct shuffled as [| s0 srest]; [destruct Hin0 |].
      rewrite ai_select_loop_cons in Hrun
        by (first [exact Hto | apply Hturn, Hto; now left]).
      destruct (ai_select_loop_black depth g Hturn srest (Some s0)
                  (select_score depth (current g) s0)) as (bm & bv & Hrun' & _ & _ & Hkept).
      { intros x Hx. apply Hto. now right. }
      rewrite Hrun' in Hrun. injection Hrun as -> ->.
      destruct Hkept as [Heq | (m & _ & Hm & _)]; discriminate.
    - exists m. unfold bind. rewrite Hrun. subst bm bv. cbn [fst].
      assert (Hsome : Ai.falsy (Some m) = false).
      { unfold Ai.falsy. destruct (string_dec m EmptyString) as [-> | _]; [| reflexivity].
        exfalso. apply Hnonempty. apply Hto. exact Hin. }
      rewrite Hsome. split; [reflexivity |]. split; [apply Hto; exact Hin |].
      intros m' Hin'. apply Hall. apply Hfrom. exact Hin'. }
  unfold Ai.getBestMove. rewrite bind_game_moves.
  remember (legal_moves (current g)) as moves eqn:Hlist in |- *.
  destruct moves as [| m0 rest]; [now contradiction Hmoves |].
  rewrite Hlist.
  destruct difficulty; [now contradiction Hsearching | | |]; apply Hgeneral.
Qed.

End AiDirection.

(** ** The unpruned search is the textbook minimax

    [unpruned] starts its maximum and minimum from the initial values of
    [bestEval]. When every terminal score lies strictly between them and the
    rules engine reports a position without moves as game-over, that is the
    plain maximum or minimum over the children. *)

Section Textbook.

Context {Position : Type} `{RulesEngine Position}.
Variable leaf : Position -> Z.
Variables lo hi : Z.
Hypothesis leaf_bounds : forall p, lo < leaf p < hi.
Hypothesis no_moves_game_over : forall p, legal_moves p = [] -> is_game_over p = true.

Lemma fold_max_bounds (l : list Z) (x : Z) :
  lo < x < hi -> Forall (fun v => lo < v < hi) l -> lo < fold_left Z.max l x < hi.
Proof.
  revert x. induction l as [| a l IH]; intros x Hx Hl; simpl; [exact Hx |].
  inversion Hl; subst. apply IH; [lia | assumption].
Qed.

Lemma fold_min_bounds (l : list Z) (x : Z) :
  lo < x < hi -> Forall (fun v => lo < v < hi) l -> lo < fold_left Z.min l x < hi.
Proof.
  revert x. induction l as [| a l IH]; intros x Hx Hl; simpl; [exact Hx |].
  inversion Hl; subst. apply IH; [lia | assumption].
Qed.

Lemma unpruned_is_minimax_value (depth : nat) :
  forall (mx : bool) (p : Position),
    unpruned leaf lo hi depth mx p = minimax_value leaf depth mx p /\
    lo < unpruned leaf lo hi depth mx p < hi.
Proof.
  induction depth as [| d IH]; intros mx p.
  - simpl. split; [reflexivity | apply leaf_bounds].
  - simpl. destruct (is_game_over p) eqn:Hover; [split; [reflexivity | apply leaf_bounds] |].
    rewrite (map_ext (fun m => minimax_value leaf d (negb mx) (apply_move p m))
                     (fun m => unpruned leaf lo hi d (negb mx) (apply_move p m)))
      by (intros m; symmetry; apply IH).
    assert (Hall : Forall (fun v => lo < v < hi)
                     (map (fun m => unpruned leaf lo hi d (negb mx) (apply_move p m))
                          (legal_moves p))).
    { apply Forall_forall. intros v Hv. apply in_map_iff in Hv.
      destruct Hv as (m & <- & _). apply IH. }
    destruct (legal_moves p) as [| m0 rest] eqn:Hmoves.
    { rewrite (no_moves_game_over p Hmoves) in Hover. discriminate. }
    simpl map in *. inversion Hall as [| s l Hs Hrest]; subst.
    destruct mx; simpl fold_left.
    + replace (Z.max lo (unpruned leaf lo hi d (negb true) (apply_move p m0)))
        with (unpruned leaf lo hi d (negb true) (apply_move p m0)) by lia.
      split; [reflexivity | now apply fold_max_bounds].
    + replace (Z.min hi (unpruned leaf lo hi d (negb false) (apply_move p m0)))
        with (unpruned leaf lo hi d (negb false) (apply_move p m0)) by lia.
      split; [reflexivity | now apply fold_min_bounds].
Qed.

End Textbook.

(** Every score [ChessAI.evaluate] can return lies within 64 kings. *)

Lemma nth_in_range (l : list Z) (a b : Z) (n : nat) :
  Forall (fun v => a <= v <= b) l -> a <= 0 <= b -> a <= nth n l 0 <= b.
Proof.
  intros Hl H0. revert n. induction Hl as [| x l Hx Hl IH]; intros [| n]; simpl; auto.
Qed.

Lemma chessai_term_bounds (board : Board) (i j : nat) :
  -900 <= chessai_term board i j <= 900.
Proof.
  unfold chessai_term, bonus.
  destruct (square board i j) as [[t c] |]; [| lia].
  cbn [ptype pcolor].
  pose proof (nth_in_range ChessAI.PST_p (-10) 50 (table_index c i j)) as Hp.
  pose proof (nth_in_range ChessAI.PST_n (-50) 20 (table_index c i j)) as Hn.
  assert (-10 <= nth (table_index c i j) ChessAI.PST_p 0 <= 50) as Hp'.
  { apply Hp; [| lia]. unfold ChessAI.PST_p. repeat constructor; lia. }
  assert (-50 <= nth (table_index c i j) ChessAI.PST_n 0 <= 20) as Hn'.
  { apply Hn; [| lia]. unfold ChessAI.PST_n. repeat constructor; lia. }
  destruct t, c; cbn [material sign]; lia.
Qed.

Lemma sum_Z_bounds {A : Type} (f : A -> Z) (c : Z) (l : list A) :
  (forall a, - c <= f a <= c) ->
  - (Z.of_nat (List.length l) * c) <= sum_Z (map f l) <= Z.of_nat (List.length l) * c.
Proof.
  intros Hf. induction l as [| a l IH].
  - simpl. lia.
  - cbn [map sum_Z fold_right List.length]. fold (sum_Z (map f l)).
    specialize (Hf a). rewrite Nat2Z.inj_succ. lia.
Qed.

Lemma chessai_evaluate_bounds (board : Board) : -57600 <= ChessAI.evaluate board <= 57600.
Proof.
  rewrite chessai_evaluate_grid. unfold grid_sum.
  pose proof (sum_Z_bounds (fun i => sum_Z (map (chessai_term board i) (seq 0 8))) 7200
                (seq 0 8)) as Hrows.
  simpl List.length in Hrows. apply Hrows. intros i.
  pose proof (sum_Z_bounds (chessai_term board i) 900 (seq 0 8)) as Hrow.
  simpl List.length in Hrow. apply Hrow. intros j. apply chessai_term_bounds.
Qed.

(** With the full window [ChessAI.minimax] returns the textbook minimax
    value of the position, for a rules engine that reports a position without
    moves as game-over. *)
Lemma chessai_minimax_is_minimax_value {Position : Type} `{RulesEngine Position} :
  (forall p : Position, legal_moves p = [] -> is_game_over p = true) ->
  forall (depth : nat) (mx : bool) (g : Chess Position),
    ChessAI.minimax depth NegInf PosInf mx g
    = Some (minimax_value chessai_leaf depth mx (current g), g).
Proof.
  intros Hrules depth mx g.
  rewrite chessai_minimax_run. unfold chessai_search. rewrite search_full_window.
  f_equal. f_equal.
  apply (unpruned_is_minimax_value chessai_leaf (-99999) 99999).
  - intros p. unfold chessai_leaf.
    pose proof (chessai_evaluate_bounds (board_of p)). lia.
  - exact Hrules.
Qed.

(** Without that report [minimax] returns the initial value of [bestEval] on
    a position without moves. *)
Remark minimax_no_moves_not_over {Position : Type} `{RulesEngine Position}
  (depth : nat) (alpha beta : number) (g : Chess Position) :
  legal_moves (current g) = [] ->
  is_game_over (current g) = false ->
  Ai.minimax (S depth) alpha beta true g = Some (-9999, g) /\
  Ai.minimax (S depth) alpha beta false g = Some (9999, g) /\
  ChessAI.minimax (S depth) alpha beta true g = Some (-99999, g) /\
  ChessAI.minimax (S depth) alpha beta false g = Some (99999, g).
Proof.
  intros Hnone Hover.
  rewrite !ai_minimax_run, !chessai_minimax_run.
  unfold ai_search, chessai_search. simpl. rewrite Hover, Hnone.
  repeat split; reflexivity.
Qed.

(** ** Ties go to the earliest candidate *)

Section ChessAIFirstBest.

Context {Position : Type} `{RulesEngine Position}.

(** For Black the re-run loop keeps what it had when no candidate scores
    strictly lower, and otherwise the first candidate of lowest score. *)
Lemma chessai_rerun_first_lowest (depth : nat) (g : Chess Position) :
  forall (moves : list Move) (bestMoveFound : option Move) (bestValFound : number),
    incl moves (legal_moves (current g)) ->
    let score := rerun_score depth false (current g) in
    exists best',
      ChessAI.rerun_loop depth false moves (bestMoveFound, bestValFound) g
      = Some (best', g) /\
      ((best' = (bestMoveFound, bestValFound) /\
        forall m, In m moves -> num_le bestValFound (Fin (score m))) \/
       exists before m after,
         moves = before ++ m :: after /\
         best' = (Some m, Fin (score m)) /\
         num_lt (Fin (score m)) bestValFound /\
         (forall m', In m' before -> score m < score m') /\
         (forall m', In m' after -> score m <= score m')).
Proof.
  intros moves. cbv zeta. set (score := rerun_score depth false (current g)).
  induction moves as [| m0 rest IH]; intros bestMoveFound bestValFound Hincl.
  - exists (bestMoveFound, bestValFound). split; [reflexivity |].
    left. split; [reflexivity | intros m []].
  - rewrite chessai_rerun_loop_cons by exact Hincl. fold score. cbn [snd].
    assert (Hrest : incl rest (legal_moves (current g))).
    { intros x Hx. apply Hincl. now right. }
    destruct (num_ltb (Fin (score m0)) bestValFound) eqn:Hlt.
    + apply num_ltb_true in Hlt.
      destruct (IH (Some m0) (Fin (score m0)) Hrest)
        as (best' & Hrun & [(Heq & Hall) | (before & m & after & Hsplit & Heq & Hlow & Hb & Ha)]).
      * exists best'. split; [exact Hrun |]. right.
        exists [], m0, rest. split; [reflexivity |]. split; [exact Heq |].
        split; [exact Hlt |]. split; [intros m' [] |].
        intros m' Hin. exact (Hall m' Hin).
      * exists best'. split; [exact Hrun |]. right.
        exists (m0 :: before), m, after. split; [now rewrite Hsplit |].
        split; [exact Heq |]. cbn [num_lt] in Hlow.
        split; [destruct bestValFound; cbn [num_lt] in *; try contradiction; auto; lia |].
        split; [| exact Ha].
        intros m' [<- | Hin]; [exact Hlow | now apply Hb].
    + apply num_ltb_false in Hlt.
      destruct (IH bestMoveFound bestValFound Hrest)
        as (best' & Hrun & [(Heq & Hall) | (before & m & after & Hsplit & Heq & Hlow & Hb & Ha)]).
      * exists best'. split; [exact Hrun |]. left. split; [exact Heq |].
        intros m' [<- | Hin]; [exact Hlt | now apply Hall].
      * exists best'. split; [exact Hrun |]. right.
        exists (m0 :: before), m, after. split; [now rewrite Hsplit |].
        split; [exact Heq |]. split; [exact Hlow |]. split; [| exact Ha].
        intros m' [<- | Hin]; [| now apply Hb].
        destruct bestValFound; cbn [num_lt num_le] in *; try contradiction; lia.
Qed.

(** For White, symmetrically, the first candidate of highest score. *)
Lemma chessai_rerun_first_highest (depth : nat) (g : Chess Position) :
  forall (moves : list Move) (bestMoveFound : option Move) (bestValFound : number),
    incl moves (legal_moves (current g)) ->
    let score := rerun_score depth true (current g) in
    exists best',
      ChessAI.rerun_loop depth true moves (bestMoveFound, bestValFound) g
      = Some (best', g) /\
      ((best' = (bestMoveFound, bestValFound) /\
        forall m, In m moves -> num_le (Fin (score m)) bestValFound) \/
       exists before m after,
         moves = before ++ m :: after /\
         best' = (Some m, Fin (score m)) /\
         num_lt bestValFound (Fin (score m)) /\
         (forall m', In m' before -> score m' < score m) /\
         (forall m', In m' after -> score m' <= score m)).
Proof.
  intros moves. cbv zeta. set (score := rerun_score depth true (current g)).
  induction moves as [| m0 rest IH]; intros bestMoveFound bestValFound Hincl.
  - exists (bestMoveFound, bestValFound). split; [reflexivity |].
    left. split; [reflexivity | intros m []].
  - rewrite chessai_rerun_loop_cons by exact Hincl. fold score. cbn [snd].
    assert (Hrest : incl rest (legal_moves (current g))).
    { intros x Hx. apply Hincl. now right. }
    destruct (num_ltb bestValFound (Fin (score m0))) eqn:Hlt.
    + apply num_ltb_true in Hlt.
      destruct (IH (Some m0) (Fin (score m0)) Hrest)
        as (best' & Hrun & [(Heq & Hall) | (before & m & after & Hsplit & Heq & Hlow & Hb & Ha)]).
      * exists best'. split; [exact Hrun |]. right.
        exists [], m0, rest. split; [reflexivity |]. split; [exact Heq |].
        split; [exact Hlt |]. split; [intros m' [] |].
        intros m' Hin. exact (Hall m' Hin).
      * exists best'. split; [exact Hrun |]. right.
        exists (m0 :: before), m, after. split; [now rewrite Hsplit |].
        split; [exact Heq |]. cbn [num_lt] in Hlow.
        split; [destruct bestValFound; cbn [num_lt] in *; try contradiction; auto; lia |].
        split; [| exact Ha].
        intros m' [<- | Hin]; [exact Hlow | now apply Hb].
    + apply num_ltb_false in Hlt.
      destruct (IH bestMoveFound bestValFound Hrest)
        as (best' & Hrun & [(Heq & Hall) | (before & m & after & Hsplit & Heq & Hlow & Hb & Ha)]).
      * exists best'. split; [exact Hrun |]. left. split; [exact Heq |].
        intros m' [<- | Hin]; [exact Hlt | now apply Hall].
      * exists best'. split; [exact Hrun |]. right.
        exists (m0 :: before), m, after. split; [now rewrite Hsplit |].
        split; [exact Heq |]. split; [exact Hlow |]. split; [| exact Ha].
        intros m' [<- | Hin]; [| now apply Hb].
        destruct bestValFound; cbn [num_lt num_le] in *; try contradiction; lia.
Qed.

(** What [ChessAI.getBestMove] does once the move list is known to be
    non-empty and the tier searches. *)
Lemma chessai_getBestMove_searching (rnd : Random) (difficulty : Difficulty)
  (g : Chess Position) :
  difficulty <> Beginner ->
  legal_moves (current g) <> [] ->
  ChessAI.getBestMove rnd difficulty g
  = bind (ChessAI.rerun_loop (ChessAI.depth_of difficulty)
            (color_eqb (turn_of (current g)) White) (legal_moves (current g))
            (nth_error (legal_moves (current g)) 0,
             if color_eqb (turn_of (current g)) White then NegInf else PosInf))
         (fun best => ret (fst best)) g.
Proof.
  intros Hsearching Hmoves.
  unfold ChessAI.getBestMove. rewrite bind_game_moves.
  remember (legal_moves (current g)) as moves eqn:Hlist in |- *.
  destruct moves as [| m0 rest]; [now contradiction Hmoves |].
  rewrite Hlist.
  destruct difficulty; [now contradiction Hsearching | | |];
    rewrite bind_game_turn;
    apply chessai_first_loop_skip, incl_refl.
Qed.

End ChessAIFirstBest.

(** The first move, in enumeration order, that attains the best score. *)
Lemma chessai_getBestMove_first_best :
  forall (Position : Type) (E : RulesEngine Position) (rnd : Random)
         (difficulty : Difficulty) (g : Chess Position),
    difficulty <> Beginner ->
    legal_moves (current g) <> [] ->
    let isWhite := color_eqb (turn_of (current g)) White in
    let score := rerun_score (ChessAI.depth_of difficulty) isWhite (current g) in
    exists before m after,
      legal_moves (current g) = before ++ m :: after /\
      ChessAI.getBestMove rnd difficulty g = Some (Some m, g) /\
      if isWhite
      then (forall m', In m' before -> score m' < score m) /\
           (forall m', In m' after -> score m' <= score m)
      else (forall m', In m' before -> score m < score m') /\
           (forall m', In m' after -> score m <= score m').
Proof.
  intros Position E rnd difficulty g Hsearching Hmoves isWhite score.
  rewrite chessai_getBestMove_searching by assumption. fold isWhite.
  assert (Hhead : exists m0, In m0 (legal_moves (current g))).
  { destruct (legal_moves (current g)) as [| m0 rest];
      [now contradiction Hmoves | exists m0; now left]. }
  destruct Hhead as (m0 & Hin0).
  unfold score. destruct isWhite.
  - destruct (chessai_rerun_first_highest (ChessAI.depth_of difficulty) g
                (legal_moves (current g)) (nth_error (legal_moves (current g)) 0) NegInf
                (incl_refl _))
      as (best' & Hrun & [(_ & Hall) | (before & m & after & Hsplit & Heq & _ & Hb & Ha)]).
    + exfalso. exact (Hall m0 Hin0).
    + exists before, m, after. unfold bind. rewrite Hrun, Heq.
      split; [exact Hsplit |]. split; [reflexivity |]. split; assumption.
  - destruct (chessai_rerun_first_lowest (ChessAI.depth_of difficulty) g
                (legal_moves (current g)) (nth_error (legal_moves (current g)) 0) PosInf
                (incl_refl _))
      as (best' & Hrun & [(_ & Hall) | (before & m & after & Hsplit & Heq & _ & Hb & Ha)]).
    + exfalso. exact (Hall m0 Hin0).
    + exists before, m, after. unfold bind. rewrite Hrun, Heq.
      split; [exact Hsplit |]. split; [reflexivity |]. split; assumption.
Qed.

Section AiFirstBest.

Context {Position : Type} `{RulesEngine Position}.

(** One iteration of the selection loop of [Ai.getBestMove]. *)
Lemma ai_select_loop_step (depth : nat) (m : Move) (rest : list Move)
  (bestMove : option Move) (bestValue : Z) (g : Chess Position) :
  incl (m :: rest) (legal_moves (current g)) ->
  Ai.select_loop depth (m :: rest) (bestMove, bestValue) g
  = Ai.select_loop depth rest
      (if color_eqb (turn_of (apply_move (current g) m)) Black
       then if bestValue <? ai_score depth (current g) m
            then (Some m, ai_score depth (current g) m)
            else (bestMove, bestValue)
       else match bestMove with
            | None => (Some m, ai_score depth (current g) m)
            | Some _ =>
                if ai_score depth (current g) m <? bestValue
                then (Some m, ai_score depth (current g) m)
                else (bestMove, bestValue)
            end) g.
Proof.
  intros Hincl.
  simpl Ai.select_loop. unfold bind at 1.
  rewrite game_move_legal by (apply Hincl; now left).
  rewrite bind_game_turn. simpl current.
  unfold bind at 1. rewrite ai_minimax_run. simpl current.
  rewrite bind_game_turn. simpl current.
  cbv zeta. unfold bind at 1. rewrite game_undo_pushed.
  reflexivity.
Qed.

(** Black to move (White is to move after every candidate): the loop keeps
    the first candidate of lowest score. *)
Lemma ai_select_first_lowest (depth : nat) (g : Chess Position) :
  forall (moves : list Move) (bestMove : option Move) (bestValue : Z),
    incl moves (legal_moves (current g)) ->
    (forall m, In m moves -> turn_of (apply_move (current g) m) = White) ->
    exists best',
      Ai.select_loop depth moves (bestMove, bestValue) g = Some (best', g) /\
      ((best' = (bestMove, bestValue) /\
        (moves = [] \/
         (bestMove <> None /\
          forall m, In m moves -> bestValue <= ai_score depth (current g) m))) \/
       exists before m after,
         moves = before ++ m :: after /\
         best' = (Some m, ai_score depth (current g) m) /\
         (bestMove <> None -> ai_score depth (current g) m < bestValue) /\
         (forall m', In m' before ->
            ai_score depth (current g) m < ai_score depth (current g) m') /\
         (forall m', In m' after ->
            ai_score depth (current g) m <= ai_score depth (current g) m')).
Proof.
  set (score := ai_score depth (current g)).
  induction moves as [| m0 rest IH]; intros bestMove bestValue Hincl Hturn.
  - exists (bestMove, bestValue). split; [reflexivity |]. left. auto.
  - rewrite ai_select_loop_step by exact Hincl. fold score.
    rewrite (Hturn m0 (or_introl eq_refl)). cbn [color_eqb].
    assert (Hrest : incl rest (legal_moves (current g))).
    { intros x Hx. apply Hincl. now right. }
    assert (Hturn' : forall m, In m rest -> turn_of (apply_move (current g) m) = White).
    { intros m Hm. apply Hturn. now right. }
    assert (Hreplace : exists best',
               Ai.select_loop depth rest (Some m0, score m0) g = Some (best', g) /\
               exists before m after,
                 m0 :: rest = before ++ m :: after /\
                 best' = (Some m, score m) /\
                 score m <= score m0 /\
                 (forall m', In m' before -> score m < score m') /\
                 (forall m', In m' after -> score m <= score m')).
    { destruct (IH (Some m0) (score m0) Hrest Hturn')
        as (best' & Hrun & [(Heq & Hall) | (before & m & after & Hsplit & Heq & Hlow & Hb & Ha)]).
      - exists best'. split; [exact Hrun |].
        exists [], m0, rest. split; [reflexivity |]. split; [exact Heq |].
        split; [lia |]. split; [intros m' [] |].
        destruct Hall as [-> | (_ & Hall)]; [intros m' [] | exact Hall].
      - exists best'. split; [exact Hrun |].
        specialize (Hlow ltac:(discriminate)).
        exists (m0 :: before), m, after. split; [now rewrite Hsplit |].
        split; [exact Heq |]. split; [lia |]. split; [| exact Ha].
        intros m' [<- | Hin]; [exact Hlow | now apply Hb]. }
    destruct bestMove as [b |].
    + destruct (Z.ltb_spec (score m0) bestValue) as [Hlt | Hge].
      * destruct Hreplace as (best' & Hrun & before & m & after & Hsplit & Heq & Hle & Hb & Ha).
        exists best'. split; [exact Hrun |]. right.
        exists before, m, after. repeat (split; [assumption |]).
        split; [intros _; lia |]. split; assumption.
      * destruct (IH (Some b) bestValue Hrest Hturn')
          as (best' & Hrun & [(Heq & Hall) | (before & m & after & Hsplit & Heq & Hlow & Hb & Ha)]).
        -- exists best'. split; [exact Hrun |]. left. split; [exact Heq |].
           right. split; [discriminate |].
           intros m' [<- | Hin]; [exact Hge |].
           destruct Hall as [-> | (_ & Hall)]; [destruct Hin | now apply Hall].
        -- exists best'. split; [exact Hrun |]. right.
           specialize (Hlow ltac:(discriminate)).
           exists (m0 :: before), m, after. split; [now rewrite Hsplit |].
           split; [exact Heq |]. split; [intros _; exact Hlow |]. split; [| exact Ha].
           intros m' [<- | Hin]; [lia | now apply Hb].
    + destruct Hreplace as (best' & Hrun & before & m & after & Hsplit & Heq & Hle & Hb & Ha).
      exists best'. split; [exact Hrun |]. right.
      exists before, m, after. repeat (split; [assumption |]).
      split; [intros Hnone; now contradiction Hnone |]. split; assumption.
Qed.

(** White to move (Black is to move after every candidate): the loop keeps
    the first candidate of highest score, if one scores above what it had. *)
Lemma ai_select_first_highest (depth : nat) (g : Chess Position) :
  forall (moves : list Move) (bestMove : option Move) (bestValue : Z),
    incl moves (legal_moves (current g)) ->
    (forall m, In m moves -> turn_of (apply_move (current g) m) = Black) ->
    exists best',
      Ai.select_loop depth moves (bestMove, bestValue) g = Some (best', g) /\
      ((best' = (bestMove, bestValue) /\
        forall m, In m moves -> ai_score depth (current g) m <= bestValue) \/
       exists before m after,
         moves = before ++ m :: after /\
         best' = (Some m, ai_score depth (current g) m) /\
         bestValue < ai_score depth (current g) m /\
         (forall m', In m' before ->
            ai_score depth (current g) m' < ai_score depth (current g) m) /\
         (forall m', In m' after ->
            ai_score depth (current g) m' <= ai_score depth (current g) m)).
Proof.
  set (score := ai_score depth (current g)).
  induction moves as [| m0 rest IH]; intros bestMove bestValue Hincl Hturn.
  - exists (bestMove, bestValue). split; [reflexivity |]. left.
    split; [reflexivity | intros m []].
  - rewrite ai_select_loop_step by exact Hincl. fold score.
    rewrite (Hturn m0 (or_introl eq_refl)). cbn [color_eqb].
    assert (Hrest : incl rest (legal_moves (current g))).
    { intros x Hx. apply Hincl. now right. }
    assert (Hturn' : forall m, In m rest -> turn_of (apply_move (current g) m) = Black).
    { intros m Hm. apply Hturn. now right. }
    destruct (Z.ltb_spec bestValue (score m0)) as [Hlt | Hge].
    + destruct (IH (Some m0) (score m0) Hrest Hturn')
        as (best' & Hrun & [(Heq & Hall) | (before & m & after & Hsplit & Heq & Hlow & Hb & Ha)]).
      * exists best'. split; [exact Hrun |]. right.
        exists [], m0, rest. split; [reflexivity |]. split; [exact Heq |].
        split; [exact Hlt |]. split; [intros m' [] | exact Hall].
      * exists best'. split; [exact Hrun |]. right.
        exists (m0 :: before), m, after. split; [now rewrite Hsplit |].
        split; [exact Heq |]. split; [lia |]. split; [| exact Ha].
        intros m' [<- | Hin]; [exact Hlow | now apply Hb].
    + destruct (IH bestMove bestValue Hrest Hturn')
        as (best' & Hrun & [(Heq & Hall) | (before & m & after & Hsplit & Heq & Hlow & Hb & Ha)]).
      * exists best'. split; [exact Hrun |]. left. split; [exact Heq |].
        intros m' [<- | Hin]; [exact Hge | now apply Hall].
      * exists best'. split; [exact Hrun |]. right.
        exists (m0 :: before), m, after. split; [now rewrite Hsplit |].
        split; [exact Heq |]. split; [exact Hlow |]. split; [| exact Ha].
        intros m' [<- | Hin]; [lia | now apply Hb].
Qed.

(** What [Ai.getBestMove] does once the move list is known to be non-empty
    and the tier searches. *)
Lemma ai_getBestMove_searching (rnd : Random) (difficulty : Difficulty)
  (g : Chess Position) :
  difficulty <> Beginner ->
  legal_moves (current g) <> [] ->
  Ai.getBestMove rnd difficulty g
  = bind (Ai.select_loop (Ai.depth_of difficulty) (shuffle rnd (legal_moves (current g)))
            (None, -9999))
         (fun best => if Ai.falsy (fst best)
                      then ret (nth_error (shuffle rnd (legal_moves (current g))) 0)
                      else ret (fst best)) g.
Proof.
  intros Hsearching Hmoves.
  unfold Ai.getBestMove. rewrite bind_game_moves.
  remember (legal_moves (current g)) as moves eqn:Hlist in |- *.
  destruct moves as [| m0 rest]; [now contradiction Hmoves |].
  rewrite Hlist.
  destruct difficulty; [now contradiction Hsearching | | |]; reflexivity.
Qed.

End AiFirstBest.

(** The first move, in the order the shuffle left them in, that attains the
    best score. *)
Lemma ai_getBestMove_first_best :
  forall (Position : Type) (E : RulesEngine Position) (rnd : Random)
         (difficulty : Difficulty) (g : Chess Position),
    difficulty <> Beginner ->
    legal_moves (current g) <> [] ->
    ~ In EmptyString (legal_moves (current g)) ->
    (forall m, In m (legal_moves (current g)) ->
       turn_of (apply_move (current g) m) = opposite (turn_of (current g))) ->
    (turn_of (current g) = White ->
     forall m, In m (legal_moves (current g)) ->
       -9999 < ai_score (Ai.depth_of difficulty) (current g) m) ->
    let score := ai_score (Ai.depth_of difficulty) (current g) in
    exists before m after,
      shuffle rnd (legal_moves (current g)) = before ++ m :: after /\
      Ai.getBestMove rnd difficulty g = Some (Some m, g) /\
      match turn_of (current g) with
      | White => (forall m', In m' before -> score m' < score m) /\
                 (forall m', In m' after -> score m' <= score m)
      | Black => (forall m', In m' before -> score m < score m') /\
                 (forall m', In m' after -> score m <= score m')
      end.
Proof.
  intros Position E rnd difficulty g Hsearching Hmoves Hnonempty Hturn Habove score.
  rewrite ai_getBestMove_searching by assumption.
  pose proof (shuffle_perm rnd (legal_moves (current g))) as Hperm.
  assert (Hto : incl (shuffle rnd (legal_moves (current g))) (legal_moves (current g))).
  { intros x Hx. eapply Permutation_in; [apply Permutation_sym; exact Hperm | exact Hx]. }
  assert (Hhead : exists m0, In m0 (shuffle rnd (legal_moves (current g)))).
  { destruct (legal_moves (current g)) as [| m0 rest];
      [now contradiction Hmoves |].
    exists m0. eapply Permutation_in; [exact Hperm | now left]. }
  destruct Hhead as (m0 & Hin0).
  assert (Hkept : forall m, In m (shuffle rnd (legal_moves (current g))) ->
                    Ai.falsy (Some m) = false).
  { intros m Hin. unfold Ai.falsy.
    destruct (string_dec m EmptyString) as [-> | _]; [| reflexivity].
    exfalso. apply Hnonempty, Hto, Hin. }
  unfold score. destruct (turn_of (current g)) eqn:Hside.
  - destruct (ai_select_first_highest (Ai.depth_of difficulty) g
                (shuffle rnd (legal_moves (current g))) None (-9999) Hto)
      as (best' & Hrun & [(_ & Hall) | (before & m & after & Hsplit & Heq & _ & Hb & Ha)]).
    { intros m Hm. rewrite (Hturn m (Hto m Hm)). reflexivity. }
    + exfalso. specialize (Hall m0 Hin0).
      specialize (Habove eq_refl m0 (Hto m0 Hin0)). lia.
    + exists before, m, after. unfold bind. rewrite Hrun, Heq. cbn [fst].
      rewrite Hkept by (rewrite Hsplit; apply in_or_app; right; now left).
      split; [exact Hsplit |]. split; [reflexivity |]. split; assumption.
  - destruct (ai_select_first_lowest (Ai.depth_of difficulty) g
                (shuffle rnd (legal_moves (current g))) None (-9999) Hto)
      as (best' & Hrun & [(_ & Hall) | (before & m & after & Hsplit & Heq & _ & Hb & Ha)]).
    { intros m Hm. rewrite (Hturn m (Hto m Hm)). reflexivity. }
    + exfalso. destruct Hall as [Hnil | (Hnone & _)].
      * rewrite Hnil in Hin0. destruct Hin0.
      * now apply Hnone.
    + exists before, m, after. unfold bind. rewrite Hrun, Heq. cbn [fst].
      rewrite Hkept by (rewrite Hsplit; apply in_or_app; right; now left).
      split; [exact Hsplit |]. split; [reflexivity |]. split; assumption.
Qed.

(** [carry_forward m] puts [m] first when it is a candidate. *)
Lemma carry_forward_head (m : Move) (l : list Move) :
  In m l -> exists rest, carry_forward m l = m :: rest.
Proof.
  induction l as [| x rest IH]; intros Hin; [destruct Hin |].
  cbn [carry_forward]. destruct (string_dec x m) as [-> | Hne].
  - now exists rest.
  - destruct Hin as [Heq | Hin]; [now contradiction Hne |].
    destruct (IH Hin) as (rest' & ->). now exists (x :: rest').
Qed.

(** ** The scripted engine *)

Lemma script_game_over_without_moves (p : Script) :
  legal_moves p = [] -> is_game_over p = true.
Proof.
  destruct p as [board turn drawn replies]. simpl.
  destruct replies; [intros _; apply orb_true_r | discriminate].
Qed.

(** * The claims *)

(** C1. The claim: at depth 0, or when the game is over, [minimax] returns the
    evaluator's score itself. Both engines return its negation, although the
    comments in [getBestMove] say that [minimax] returns the board value with
    White positive. With the queen still on the board ([queen_en_prise]) the
    evaluators give 70 and -30 and [minimax] at depth 0 gives -70 and 30. *)
Theorem minimax_leaf_is_negated :
  (forall (Position : Type) (E : RulesEngine Position) (g : Chess Position)
          (alpha beta : number) (mx : bool),
      Ai.minimax 0 alpha beta mx g = Some (- Ai.evaluate (board_of (current g)), g) /\
      ChessAI.minimax 0 alpha beta mx g = Some (- ChessAI.evaluate (board_of (current g)), g) /\
      forall depth : nat,
        is_game_over (current g) = true ->
        Ai.minimax depth alpha beta mx g = Some (- Ai.evaluate (board_of (current g)), g) /\
        ChessAI.minimax depth alpha beta mx g
        = Some (- ChessAI.evaluate (board_of (current g)), g))
  /\ Ai.evaluateBoard (new_game queen_en_prise) = Some (70, new_game queen_en_prise)
  /\ Ai.minimax 0 NegInf PosInf true (new_game queen_en_prise)
     = Some (-70, new_game queen_en_prise)
  /\ ChessAI.evaluateBoard (new_game queen_en_prise) = Some (-30, new_game queen_en_prise)
  /\ ChessAI.minimax 0 NegInf PosInf true (new_game queen_en_prise)
     = Some (30, new_game queen_en_prise).
Proof.
  split.
  - intros Position E g alpha beta mx.
    split; [reflexivity |]. split; [reflexivity |].
    intros depth Hover. rewrite ai_minimax_run, chessai_minimax_run.
    unfold ai_search, chessai_search.
    destruct depth; simpl; rewrite ?Hover; split; reflexivity.
  - repeat split; vm_compute; reflexivity.
Qed.

(** C2. The claim: when one move wins material at once, [getBestMove] returns
    it at every searching tier. It does not. At [Easy], [ChessAI.getBestMove]
    returns for Black a move after which the evaluation (White positive) is
    highest, and for White one after which it is lowest. In [queen_en_prise]
    the evaluations of the four positions Black can reach are -30, 10, 15 and
    -80, so taking the queen ([hxg6]) is Black's best by far, and [h5] is
    returned. In [pawn_en_prise] taking the pawn ([Kxd4]) is the only move
    that wins material, and [Ai.getBestMove] at [Easy] returns another move
    whatever the shuffle: [Kc6] when the moves are left in order, [Kc4] when
    they are reversed. *)
Theorem getBestMove_declines_the_capture :
  (forall (Position : Type) (E : RulesEngine Position) (rnd : Random) (g : Chess Position),
      legal_moves (current g) <> [] ->
      exists m,
        ChessAI.getBestMove rnd Easy g = Some (Some m, g) /\
        forall m', In m' (legal_moves (current g)) ->
          let value m := ChessAI.evaluate (board_of (apply_move (current g) m)) in
          match turn_of (current g) with
          | White => value m <= value m'
          | Black => value m' <= value m
          end)
  /\ map (fun m => ChessAI.evaluate (board_of (apply_move queen_en_prise m)))
         (legal_moves queen_en_prise) = [-30; 10; 15; -80]
  /\ (forall rnd : Random,
         ChessAI.getBestMove rnd Easy (new_game queen_en_prise)
         = Some (Some "h5"%string, new_game queen_en_prise))
  /\ map (fun m => Ai.evaluate (board_of (apply_move pawn_en_prise m)))
         (legal_moves pawn_en_prise) = [10; 10; 10; 10; 0; 10]
  /\ (forall rnd : Random,
         exists m,
           Ai.getBestMove rnd Easy (new_game pawn_en_prise)
           = Some (Some m, new_game pawn_en_prise) /\
           m <> "Kxd4"%string)
  /\ Ai.getBestMove keep_order Easy (new_game pawn_en_prise)
     = Some (Some "Kc6"%string, new_game pawn_en_prise)
  /\ Ai.getBestMove reverse_order Easy (new_game pawn_en_prise)
     = Some (Some "Kc4"%string, new_game pawn_en_prise).
Proof.
  split.
  { intros Position E rnd g Hmoves.
    destruct (chessai_easy_picks_the_worst rnd g Hmoves) as (m & Hrun & _ & Hworst).
    exists m. split; [exact Hrun | exact Hworst]. }
  split; [vm_compute; reflexivity |].
  split; [intros rnd; vm_compute; reflexivity |].
  split; [vm_compute; reflexivity |].
  split; [| split; vm_compute; reflexivity].
  intros rnd.
  destruct (ai_getBestMove_black rnd Easy (new_game pawn_en_prise))
    as (m & Hrun & _ & Hlowest).
  - discriminate.
  - discriminate.
  - simpl. intros Hin. repeat destruct Hin as [Hin | Hin]; try discriminate Hin; exact Hin.
  - simpl. intros m Hin.
    repeat destruct Hin as [<- | Hin]; try reflexivity; destruct Hin.
  - exists m. split; [exact Hrun |].
    intros ->. specialize (Hlowest "Kc6"%string ltac:(simpl; auto)).
    vm_compute in Hlowest. apply Hlowest. reflexivity.
Qed.

(** C3. For every position, depth and maximizing flag, [minimax] called with
    the window (-Infinity, +Infinity) returns the value of the unpruned
    minimax over the same tree, in both engines: [unpruned] is the same
    recursion without window and [break]. For a rules engine that reports a
    position without moves as game-over, and terminal scores strictly between
    the initial values of [bestEval] (always so in [ChessAI]), that value is
    the textbook [minimax_value]. *)
Theorem minimax_full_window_is_unpruned :
  forall (Position : Type) (E : RulesEngine Position) (depth : nat) (mx : bool)
         (g : Chess Position),
    Ai.minimax depth NegInf PosInf mx g
    = Some (unpruned ai_leaf (-9999) 9999 depth mx (current g), g) /\
    ChessAI.minimax depth NegInf PosInf mx g
    = Some (unpruned chessai_leaf (-99999) 99999 depth mx (current g), g) /\
    ((forall p : Position, legal_moves p = [] -> is_game_over p = true) ->
     ChessAI.minimax depth NegInf PosInf mx g
     = Some (minimax_value chessai_leaf depth mx (current g), g) /\
     ((forall p : Position, -9999 < ai_leaf p < 9999) ->
      Ai.minimax depth NegInf PosInf mx g
      = Some (minimax_value ai_leaf depth mx (current g), g))).
Proof.
  intros Position E depth mx g. split; [| split].
  - rewrite ai_minimax_run. unfold ai_search. now rewrite search_full_window.
  - rewrite chessai_minimax_run. unfold chessai_search. now rewrite search_full_window.
  - intros Hrules. split.
    + now apply chessai_minimax_is_minimax_value.
    + intros Hleaf. rewrite ai_minimax_run. unfold ai_search.
      rewrite search_full_window. f_equal. f_equal.
      now apply (unpruned_is_minimax_value ai_leaf (-9999) 9999).
Qed.

(** C4, as the code has it. The claim: every searching call scores the
    candidates in a randomized order, so that tied-best candidates can give
    different results. At a searching tier, on a position with legal moves:
    [ChessAI.getBestMove] has no shuffle and returns, whatever the source of
    randomness, the first move in enumeration order that attains the best
    score. [Ai.getBestMove] shuffles and returns the first move, in the order
    the shuffle left, that attains the best score, so the move returned is
    always a tied-best one and every tied-best candidate is returned for some
    shuffle. For [Ai] the turn must pass to the other side after each
    candidate, no candidate may be the empty string, and for White every
    score must exceed the initial [bestValue] of -9999. *)
Theorem shuffle_breaks_ties_in_ai_only :
  forall (Position : Type) (E : RulesEngine Position) (difficulty : Difficulty)
         (g : Chess Position),
    difficulty <> Beginner ->
    legal_moves (current g) <> [] ->
    (let isWhite := color_eqb (turn_of (current g)) White in
     let score := rerun_score (ChessAI.depth_of difficulty) isWhite (current g) in
     exists before m after,
       legal_moves (current g) = before ++ m :: after /\
       (forall rnd : Random, ChessAI.getBestMove rnd difficulty g = Some (Some m, g)) /\
       if isWhite
       then (forall m', In m' before -> score m' < score m) /\
            (forall m', In m' after -> score m' <= score m)
       else (forall m', In m' before -> score m < score m') /\
            (forall m', In m' after -> score m <= score m'))
    /\
    (~ In EmptyString (legal_moves (current g)) ->
     (forall m, In m (legal_moves (current g)) ->
        turn_of (apply_move (current g) m) = opposite (turn_of (current g))) ->
     (turn_of (current g) = White ->
      forall m, In m (legal_moves (current g)) ->
        -9999 < ai_score (Ai.depth_of difficulty) (current g) m) ->
     let score := ai_score (Ai.depth_of difficulty) (current g) in
     let tied_best (m : Move) :=
       In m (legal_moves (current g)) /\
       forall m', In m' (legal_moves (current g)) ->
         match turn_of (current g) with
         | White => score m' <= score m
         | Black => score m <= score m'
         end in
     (forall rnd : Random,
         exists before m after,
           shuffle rnd (legal_moves (current g)) = before ++ m :: after /\
           Ai.getBestMove rnd difficulty g = Some (Some m, g) /\
           tied_best m /\
           match turn_of (current g) with
           | White => forall m', In m' before -> score m' < score m
           | Black => forall m', In m' before -> score m < score m'
           end)
     /\ (forall m : Move,
            tied_best m ->
            exists rnd : Random, Ai.getBestMove rnd difficulty g = Some (Some m, g))).
Proof.
  intros Position E difficulty g Hsearching Hmoves. split.
  - intros isWhite score.
    destruct (chessai_getBestMove_first_best Position E keep_order difficulty g
                Hsearching Hmoves)
      as (before & m & after & Hsplit & Hrun & Hcond).
    exists before, m, after. split; [exact Hsplit |]. split; [| exact Hcond].
    intros rnd. rewrite <- Hrun.
    rewrite !chessai_getBestMove_searching by assumption. reflexivity.
  - intros Hnonempty Hturn Habove score tied_best.
    assert (Hfirst : forall rnd : Random,
               exists before m after,
                 shuffle rnd (legal_moves (current g)) = before ++ m :: after /\
                 Ai.getBestMove rnd difficulty g = Some (Some m, g) /\
                 In m (legal_moves (current g)) /\
                 match turn_of (current g) with
                 | White => (forall m', In m' before -> score m' < score m) /\
                            (forall m', In m' after -> score m' <= score m)
                 | Black => (forall m', In m' before -> score m < score m') /\
                            (forall m', In m' after -> score m <= score m')
                 end).
    { intros rnd.
      destruct (ai_getBestMove_first_best Position E rnd difficulty g
                  Hsearching Hmoves Hnonempty Hturn Habove)
        as (before & m & after & Hsplit & Hrun & Hcond).
      exists before, m, after. split; [exact Hsplit |]. split; [exact Hrun |].
      split; [| exact Hcond].
      eapply Permutation_in;
        [apply Permutation_sym, (shuffle_perm rnd) |].
      rewrite Hsplit. apply in_or_app. right. now left. }
    split.
    + intros rnd.
      destruct (Hfirst rnd) as (before & m & after & Hsplit & Hrun & Hin & Hcond).
      exists before, m, after. split; [exact Hsplit |]. split; [exact Hrun |].
      assert (Hcases : forall m', In m' (legal_moves (current g)) ->
                         In m' before \/ m' = m \/ In m' after).
      { intros m' Hm'.
        apply (Permutation_in _ (shuffle_perm rnd (legal_moves (current g)))) in Hm'.
        rewrite Hsplit in Hm'. apply in_app_or in Hm'.
        destruct Hm' as [Hb | [<- | Ha]]; auto. }
      split; [split; [exact Hin |] |].
      * intros m' Hm'. destruct (turn_of (current g)); destruct Hcond as (Hb & Ha);
          destruct (Hcases m' Hm') as [H1 | [-> | H1]];
          try lia; try (specialize (Hb m' H1); lia); specialize (Ha m' H1); lia.
      * destruct (turn_of (current g)); exact (proj1 Hcond).
    + intros m (Hin & Hbest). exists (lead_with m).
      destruct (Hfirst (lead_with m))
        as (before & m1 & after & Hsplit & Hrun & Hin1 & Hcond).
      cbn [shuffle lead_with] in Hsplit.
      destruct (carry_forward_head m _ Hin) as (rest & Hhead).
      rewrite Hhead in Hsplit.
      destruct before as [| b before'].
      * injection Hsplit as Hsame _. now rewrite Hrun, Hsame.
      * injection Hsplit as Hsame _. subst b. exfalso.
        specialize (Hbest m1 Hin1).
        destruct (turn_of (current g)); destruct Hcond as (Hb & _);
          specialize (Hb m (or_introl eq_refl)); lia.
Qed.

(** C4 on [pawn_en_prise] at [Easy], where Black is to move: [ChessAI] returns
    one move for every source of randomness, and [Ai] returns [Kc6] after
    one shuffle and [Kc4], which scores the same, after another. *)
Lemma shuffle_breaks_ties_in_ai_only_witness :
  Easy <> Beginner
  /\ legal_moves (current (new_game pawn_en_prise)) <> []
  /\ ~ In EmptyString (legal_moves (current (new_game pawn_en_prise)))
  /\ (forall m, In m (legal_moves (current (new_game pawn_en_prise))) ->
        turn_of (apply_move (current (new_game pawn_en_prise)) m)
        = opposite (turn_of (current (new_game pawn_en_prise))))
  /\ (exists m,
        forall rnd : Random,
          ChessAI.getBestMove rnd Easy (new_game pawn_en_prise)
          = Some (Some m, new_game pawn_en_prise))
  /\ (forall rnd : Random,
        exists before m after,
          shuffle rnd (legal_moves pawn_en_prise) = before ++ m :: after /\
          Ai.getBestMove rnd Easy (new_game pawn_en_prise)
          = Some (Some m, new_game pawn_en_prise) /\
          (forall m', In m' (legal_moves pawn_en_prise) ->
             ai_score (Ai.depth_of Easy) pawn_en_prise m
             <= ai_score (Ai.depth_of Easy) pawn_en_prise m') /\
          (forall m', In m' before ->
             ai_score (Ai.depth_of Easy) pawn_en_prise m
             < ai_score (Ai.depth_of Easy) pawn_en_prise m'))
  /\ (exists rnd1 rnd2 : Random,
        Ai.getBestMove rnd1 Easy (new_game pawn_en_prise)
        = Some (Some "Kc6"%string, new_game pawn_en_prise) /\
        Ai.getBestMove rnd2 Easy (new_game pawn_en_prise)
        = Some (Some "Kc4"%string, new_game pawn_en_prise)).
Proof.
  assert (Hnonempty : ~ In EmptyString (legal_moves (current (new_game pawn_en_prise)))).
  { simpl. intros Hin.
    repeat destruct Hin as [Hin | Hin]; try discriminate Hin; exact Hin. }
  assert (Hturn : forall m, In m (legal_moves (current (new_game pawn_en_prise))) ->
                    turn_of (apply_move (current (new_game pawn_en_prise)) m)
                    = opposite (turn_of (current (new_game pawn_en_prise)))).
  { simpl. intros m Hin.
    repeat destruct Hin as [<- | Hin]; try reflexivity; destruct Hin. }
  assert (Htied : forall m0, In m0 ["Kc6"%string; "Kc4"%string] ->
             In m0 (legal_moves (current (new_game pawn_en_prise))) /\
             forall m', In m' (legal_moves (current (new_game pawn_en_prise))) ->
               ai_score (Ai.depth_of Easy) (current (new_game pawn_en_prise)) m0
               <= ai_score (Ai.depth_of Easy) (current (new_game pawn_en_prise)) m').
  { intros m0 Hm0. split.
    - simpl in Hm0 |- *. destruct Hm0 as [<- | [<- | []]]; auto 10.
    - intros m' Hm'. simpl in Hm', Hm0.
      destruct Hm0 as [<- | [<- | []]];
        repeat (destruct Hm' as [<- | Hm']; [vm_compute; discriminate |]);
        destruct Hm'. }
  split; [discriminate |]. split; [discriminate |].
  split; [exact Hnonempty |]. split; [exact Hturn |].
  destruct (shuffle_breaks_ties_in_ai_only Script script_engine Easy
              (new_game pawn_en_prise))
    as [Hchess Hai]; [discriminate | discriminate |].
  destruct Hchess as (_ & m & _ & _ & Hsame & _).
  destruct (Hai Hnonempty Hturn) as [Hfirst Hevery]; [discriminate |].
  split; [exists m; exact Hsame |].
  split.
  - intros rnd. destruct (Hfirst rnd) as (before & m1 & after & Hsplit & Hrun & Hbest & Hb).
    exists before, m1, after. split; [exact Hsplit |]. split; [exact Hrun |].
    split; [exact (proj2 Hbest) | exact Hb].
  - destruct (Hevery "Kc6"%string (Htied _ (or_introl eq_refl))) as (rnd1 & Hrun1).
    destruct (Hevery "Kc4"%string (Htied _ (or_intror (or_introl eq_refl)))) as (rnd2 & Hrun2).
    exists rnd1, rnd2. split; assumption.
Defined.

(** C4, the counterexample. In [pawn_en_prise] the five king moves that leave
    the pawn alone get the same score from [ChessAI], the best one for Black
    as the engine sees it, and whatever the random source, [Kc6], the first
    of them in enumeration order, is returned. *)
Lemma chessai_ties_are_not_random :
  map (rerun_score (ChessAI.depth_of Easy) false pawn_en_prise)
      (legal_moves pawn_en_prise) = [-35; -35; -35; -35; 0; -35]
  /\ (forall rnd : Random,
         ChessAI.getBestMove rnd Easy (new_game pawn_en_prise)
         = Some (Some "Kc6"%string, new_game pawn_en_prise)).
Proof.
  split; [vm_compute; reflexivity | intros rnd; vm_compute; reflexivity].
Qed.

(** C5, as the code has it. [ChessAI.evaluateBoard] returns the sum over all
    pieces of the material value plus, for pawns and knights, the bonus of
    the table at the square index (White) or at the vertically mirrored index
    (Black), signed by color; [Ai.evaluateBoard] returns the signed material
    sum alone. Neither changes the [Chess] object, and the result is a
    function of the board. *)
Theorem evaluateBoard_is_the_signed_sum :
  forall (Position : Type) (E : RulesEngine Position) (g : Chess Position),
    ChessAI.evaluateBoard g = Some (material_and_position (board_of (current g)), g) /\
    Ai.evaluateBoard g = Some (material_only (board_of (current g)), g).
Proof.
  intros Position E g.
  rewrite chessai_evaluateBoard_run, ai_evaluateBoard_run.
  now rewrite chessai_evaluate_material, ai_evaluate_material.
Qed.

(** C5, the counterexample. On the board of [queen_en_prise] the sum with the
    positional bonus is -30, and [Ai.evaluateBoard], which has no piece-square
    table, returns 70. *)
Lemma ai_evaluateBoard_has_no_bonus :
  material_and_position (board_of queen_en_prise) = -30
  /\ Ai.evaluateBoard (new_game queen_en_prise) = Some (70, new_game queen_en_prise).
Proof.
  split; vm_compute; reflexivity.
Qed.



(** C7. For a position and its color-mirrored counterpart (every piece on
    the other side, the eight ranks flipped) [evaluateBoard] returns negated
    scores. *)
Theorem evaluateBoard_mirror_negates :
  forall (Position : Type) (E : RulesEngine Position) (g g' : Chess Position),
    List.length (board_of (current g)) = 8%nat ->
    board_of (current g') = mirror_board (board_of (current g)) ->
    (exists v, ChessAI.evaluateBoard g = Some (v, g) /\
               ChessAI.evaluateBoard g' = Some (- v, g')) /\
    (exists v, Ai.evaluateBoard g = Some (v, g) /\
               Ai.evaluateBoard g' = Some (- v, g')).
Proof.
  intros Position E g g' Hlen Hmirror. split.
  - exists (ChessAI.evaluate (board_of (current g))).
    rewrite !chessai_evaluateBoard_run, Hmirror, chessai_evaluate_mirror by exact Hlen.
    split; reflexivity.
  - exists (Ai.evaluate (board_of (current g))).
    rewrite !ai_evaluateBoard_run, Hmirror, ai_evaluate_mirror by exact Hlen.
    split; reflexivity.
Qed.

(** C7 on [queen_en_prise] and its mirror image. *)
Lemma evaluateBoard_mirror_negates_witness :
  List.length (board_of (current (new_game queen_en_prise))) = 8%nat
  /\ board_of (current (new_game queen_en_prise_mirrored))
     = mirror_board (board_of (current (new_game queen_en_prise)))
  /\ (exists v, ChessAI.evaluateBoard (new_game queen_en_prise)
                = Some (v, new_game queen_en_prise) /\
                ChessAI.evaluateBoard (new_game queen_en_prise_mirrored)
                = Some (- v, new_game queen_en_prise_mirrored))
  /\ (exists v, Ai.evaluateBoard (new_game queen_en_prise)
                = Some (v, new_game queen_en_prise) /\
                Ai.evaluateBoard (new_game queen_en_prise_mirrored)
                = Some (- v, new_game queen_en_prise_mirrored)).
Proof.
  split; [reflexivity |].
  split; [reflexivity |].
  apply (evaluateBoard_mirror_negates Script script_engine
           (new_game queen_en_prise) (new_game queen_en_prise_mirrored));
    reflexivity.
Defined.

(** C8. [getBestMove] never throws; it returns [null] exactly when the
    position has no legal move, and otherwise one of the legal moves. When the
    selection loop of [Ai.getBestMove] has kept no candidate, the first move
    of the (shuffled) candidate list is returned. *)
Theorem getBestMove_null_iff_no_moves :
  forall (Position : Type) (E : RulesEngine Position) (rnd : Random)
         (difficulty : Difficulty) (g : Chess Position),
    (exists r, option_map fst (Ai.getBestMove rnd difficulty g) = Some r /\
               (r = None <-> legal_moves (current g) = []) /\
               (forall m, r = Some m -> In m (legal_moves (current g)))) /\
    (exists r, option_map fst (ChessAI.getBestMove rnd difficulty g) = Some r /\
               (r = None <-> legal_moves (current g) = []) /\
               (forall m, r = Some m -> In m (legal_moves (current g)))) /\
    (forall best : option Move * Z,
        difficulty <> Beginner ->
        legal_moves (current g) <> [] ->
        Ai.select_loop (Ai.depth_of difficulty) (shuffle rnd (legal_moves (current g)))
          (None, -9999) g = Some (best, g) ->
        Ai.falsy (fst best) = true ->
        Ai.getBestMove rnd difficulty g
        = Some (nth_error (shuffle rnd (legal_moves (current g))) 0, g)).
Proof.
  intros Position E rnd difficulty g.
  assert (Hshape : forall r : option Move,
             (legal_moves (current g) = [] -> r = None) ->
             (legal_moves (current g) <> [] ->
              exists m, r = Some m /\ In m (legal_moves (current g))) ->
             (r = None <-> legal_moves (current g) = []) /\
             (forall m, r = Some m -> In m (legal_moves (current g)))).
  { intros r Hnone Hsome.
    destruct (legal_moves (current g)) as [| m0 rest] eqn:Hmoves.
    - rewrite (Hnone eq_refl). split; [tauto | discriminate].
    - destruct Hsome as (m & Hr & Hin); [discriminate |]. subst r. split.
      + split; discriminate.
      + intros m' Hm'. injection Hm' as <-. exact Hin. }
  split; [| split].
  - destruct (ai_getBestMove_run rnd difficulty g) as (r & Hrun & Hnone & Hsome).
    exists r. rewrite Hrun. split; [reflexivity | now apply Hshape].
  - destruct (chessai_getBestMove_run rnd difficulty g) as (r & Hrun & Hnone & Hsome).
    exists r. rewrite Hrun. split; [reflexivity | now apply Hshape].
  - intros best Hsearching Hmoves Hloop Hfalsy.
    unfold Ai.getBestMove, bind at 1, game_moves.
    destruct (legal_moves (current g)) as [| m0 rest]; [now contradiction Hmoves |].
    destruct difficulty; [now contradiction Hsearching | | |];
      unfold bind; rewrite Hloop, Hfalsy; reflexivity.
Qed.

(** C9. [ChessAI.getBestMove] returns what it returns with its first scoring
    loop deleted: the move is decided by the re-run loop alone. *)
Theorem chessai_first_loop_is_dead :
  forall (Position : Type) (E : RulesEngine Position) (rnd : Random)
         (difficulty : Difficulty) (g : Chess Position),
    ChessAI.getBestMove rnd difficulty g = ChessAI.getBestMove_rerun_only rnd difficulty g.
Proof.
  intros Position E rnd difficulty g.
  unfold ChessAI.getBestMove, ChessAI.getBestMove_rerun_only.
  rewrite !bind_game_moves.
  destruct (legal_moves (current g)) as [| m0 rest] eqn:Hmoves; [reflexivity |].
  destruct difficulty; [reflexivity | | |];
    rewrite !bind_game_turn;
    apply chessai_first_loop_skip; rewrite Hmoves; apply incl_refl.
Qed.

(** C10. [getBestMove] and [minimax] leave the [Chess] object as they were
    given it: every move made is taken back before they return. *)
Theorem getBestMove_restores_the_game :
  forall (Position : Type) (E : RulesEngine Position) (rnd : Random)
         (difficulty : Difficulty) (g : Chess Position),
    option_map snd (Ai.getBestMove rnd difficulty g) = Some g /\
    option_map snd (ChessAI.getBestMove rnd difficulty g) = Some g /\
    (forall (depth : nat) (alpha beta : number) (mx : bool),
        option_map snd (Ai.minimax depth alpha beta mx g) = Some g /\
        option_map snd (ChessAI.minimax depth alpha beta mx g) = Some g).
Proof.
  intros Position E rnd difficulty g. split; [| split].
  - destruct (ai_getBestMove_run rnd difficulty g) as (r & Hrun & _).
    now rewrite Hrun.
  - destruct (chessai_getBestMove_run rnd difficulty g) as (r & Hrun & _).
    now rewrite Hrun.
  - intros depth alpha beta mx.
    now rewrite ai_minimax_run, chessai_minimax_run.
Qed.

(** * Further properties of the two engines *)

(** ** Bounds on the scores *)

Lemma ai_term_bounds (board : Board) (i j : nat) : -900 <= ai_term board i j <= 900.
Proof.
  unfold ai_term.
  destruct (square board i j) as [[t c] |]; [| lia].
  destruct t, c; cbn [ptype pcolor material sign]; lia.
Qed.

Lemma ai_evaluate_bounds (board : Board) : -57600 <= Ai.evaluate board <= 57600.
Proof.
  rewrite ai_evaluate_grid. unfold grid_sum.
  pose proof (sum_Z_bounds (fun i => sum_Z (map (ai_term board i) (seq 0 8))) 7200
                (seq 0 8)) as Hrows.
  simpl List.length in Hrows. apply Hrows. intros i.
  pose proof (sum_Z_bounds (ai_term board i) 900 (seq 0 8)) as Hrow.
  simpl List.length in Hrow. apply Hrow. intros j. apply ai_term_bounds.
Qed.

Section UnprunedBounds.

Context {Position : Type} `{RulesEngine Position}.
Variable leaf : Position -> Z.
Variables lo hi : Z.
Hypothesis lo_le_hi : lo <= hi.

Lemma fold_max_within (l : list Z) (x : Z) :
  lo <= x <= hi -> Forall (fun v => lo <= v <= hi) l -> lo <= fold_left Z.max l x <= hi.
Proof.
  revert x. induction l as [| a l IH]; intros x Hx Hl; simpl; [exact Hx |].
  inversion Hl; subst. apply IH; [lia | assumption].
Qed.

Lemma fold_min_within (l : list Z) (x : Z) :
  lo <= x <= hi -> Forall (fun v => lo <= v <= hi) l -> lo <= fold_left Z.min l x <= hi.
Proof.
  revert x. induction l as [| a l IH]; intros x Hx Hl; simpl; [exact Hx |].
  inversion Hl; subst. apply IH; [lia | assumption].
Qed.

(** The unpruned value stays between the initial values of [bestEval] when
    the terminal scores do. *)
Lemma unpruned_within (depth : nat) :
  (forall p, lo <= leaf p <= hi) ->
  forall (mx : bool) (p : Position), lo <= unpruned leaf lo hi depth mx p <= hi.
Proof.
  intros Hleaf. induction depth as [| d IH]; intros mx p; simpl; [apply Hleaf |].
  destruct (is_game_over p); [apply Hleaf |].
  assert (Hall : Forall (fun v => lo <= v <= hi)
                   (map (fun m => unpruned leaf lo hi d (negb mx) (apply_move p m))
                        (legal_moves p))).
  { apply Forall_forall. intros v Hv. apply in_map_iff in Hv.
    destruct Hv as (m & <- & _). apply IH. }
  destruct mx; [apply fold_max_within | apply fold_min_within]; try assumption; lia.
Qed.

End UnprunedBounds.

Lemma chessai_unpruned_within {Position : Type} `{RulesEngine Position}
  (depth : nat) (mx : bool) (p : Position) :
  -99999 <= unpruned chessai_leaf (-99999) 99999 depth mx p <= 99999.
Proof.
  apply unpruned_within; [lia |].
  intros q. unfold chessai_leaf. pose proof (chessai_evaluate_bounds (board_of q)). lia.
Qed.

(** A result that agrees with a value strictly inside the window is that
    value. *)
Lemma agree_inside (a b : number) (v r : Z) :
  num_lt a (Fin v) -> num_lt (Fin v) b -> agree a b v r -> r = v.
Proof.
  unfold agree. destruct a, b; simpl; intros Ha Hb (Hlow & Hhigh & Hmid);
    try contradiction; lia.
Qed.

(** X1. Called with any window [alpha < beta], [minimax] restores the game
    and returns a fail-soft result [r] for the unpruned value [v] of the
    position: if [r <= alpha] then [v <= r], if [beta <= r] then [r <= v],
    and if [r] lies strictly inside the window then [r = v]. *)
Theorem minimax_is_fail_soft :
  forall (Position : Type) (E : RulesEngine Position) (depth : nat) (alpha beta : number)
         (mx : bool) (g : Chess Position),
    num_lt alpha beta ->
    (exists r,
        Ai.minimax depth alpha beta mx g = Some (r, g) /\
        let v := unpruned ai_leaf (-9999) 9999 depth mx (current g) in
        (num_le (Fin r) alpha -> v <= r) /\
        (num_le beta (Fin r) -> r <= v) /\
        (num_lt alpha (Fin r) -> num_lt (Fin r) beta -> r = v)) /\
    (exists r,
        ChessAI.minimax depth alpha beta mx g = Some (r, g) /\
        let v := unpruned chessai_leaf (-99999) 99999 depth mx (current g) in
        (num_le (Fin r) alpha -> v <= r) /\
        (num_le beta (Fin r) -> r <= v) /\
        (num_lt alpha (Fin r) -> num_lt (Fin r) beta -> r = v)).
Proof.
  intros Position E depth alpha beta mx g Hwin. split.
  - exists (ai_search depth alpha beta mx (current g)).
    split; [apply ai_minimax_run |].
    exact (search_agree ai_leaf (-9999) 9999 true depth alpha beta mx (current g) Hwin).
  - exists (chessai_search depth alpha beta mx (current g)).
    split; [apply chessai_minimax_run |].
    exact (search_agree chessai_leaf (-99999) 99999 false depth alpha beta mx (current g) Hwin).
Qed.

(** X1 on [pawn_en_prise], two plies deep, with the window (-5, 5). *)
Lemma minimax_is_fail_soft_witness :
  num_lt (Fin (-5)) (Fin 5)
  /\ (exists r,
         Ai.minimax 2 (Fin (-5)) (Fin 5) false (new_game pawn_en_prise)
         = Some (r, new_game pawn_en_prise) /\
         let v := unpruned ai_leaf (-9999) 9999 2 false pawn_en_prise in
         (num_le (Fin r) (Fin (-5)) -> v <= r) /\
         (num_le (Fin 5) (Fin r) -> r <= v) /\
         (num_lt (Fin (-5)) (Fin r) -> num_lt (Fin r) (Fin 5) -> r = v))
  /\ (exists r,
         ChessAI.minimax 2 (Fin (-5)) (Fin 5) false (new_game pawn_en_prise)
         = Some (r, new_game pawn_en_prise) /\
         let v := unpruned chessai_leaf (-99999) 99999 2 false pawn_en_prise in
         (num_le (Fin r) (Fin (-5)) -> v <= r) /\
         (num_le (Fin 5) (Fin r) -> r <= v) /\
         (num_lt (Fin (-5)) (Fin r) -> num_lt (Fin r) (Fin 5) -> r = v)).
Proof.
  split; [simpl; lia |].
  apply (minimax_is_fail_soft Script script_engine 2%nat (Fin (-5)) (Fin 5) false
           (new_game pawn_en_prise)).
  simpl. lia.
Defined.

(** X2. In [ChessAI] the finite window (-100000, 100000) of the first loop
    and the infinite window of the re-run loop give [minimax] the same
    result, at every depth and on every position: no evaluation reaches
    the window. *)
Theorem chessai_finite_window_is_full :
  forall (Position : Type) (E : RulesEngine Position) (depth : nat) (mx : bool)
         (g : Chess Position),
    ChessAI.minimax depth (Fin (-100000)) (Fin 100000) mx g
    = ChessAI.minimax depth NegInf PosInf mx g.
Proof.
  intros Position E depth mx g.
  rewrite !chessai_minimax_run. unfold chessai_search.
  rewrite search_full_window. f_equal. f_equal.
  pose proof (chessai_unpruned_within depth mx (current g)) as Hin.
  eapply agree_inside;
    [| | exact (search_agree chessai_leaf (-99999) 99999 false depth
                  (Fin (-100000)) (Fin 100000) mx (current g) ltac:(simpl; lia))];
    simpl; lia.
Qed.

(** ** Which move [getBestMove] returns *)

(** X3. At a searching tier, on a position with legal moves,
    [ChessAI.getBestMove] returns the first move, in the order the rules
    engine lists them, that attains the best score: every earlier move scores
    strictly worse and no later move scores better (higher is better when
    White is to move, lower when Black is). *)
Theorem chessai_returns_first_best :
  forall (Position : Type) (E : RulesEngine Position) (rnd : Random)
         (difficulty : Difficulty) (g : Chess Position),
    difficulty <> Beginner ->
    legal_moves (current g) <> [] ->
    let isWhite := color_eqb (turn_of (current g)) White in
    let score := rerun_score (ChessAI.depth_of difficulty) isWhite (current g) in
    exists before m after,
      legal_moves (current g) = before ++ m :: after /\
      ChessAI.getBestMove rnd difficulty g = Some (Some m, g) /\
      if isWhite
      then (forall m', In m' before -> score m' < score m) /\
           (forall m', In m' after -> score m' <= score m)
      else (forall m', In m' before -> score m < score m') /\
           (forall m', In m' after -> score m <= score m').
Proof.
  intros Position E rnd difficulty g Hsearching Hmoves.
  exact (chessai_getBestMove_first_best Position E rnd difficulty g Hsearching Hmoves).
Qed.

(** X3 on [pawn_en_prise] at [Easy]: five moves tie and the first is kept. *)
Lemma chessai_returns_first_best_witness :
  Easy <> Beginner
  /\ legal_moves (current (new_game pawn_en_prise)) <> []
  /\ (let isWhite := color_eqb (turn_of (current (new_game pawn_en_prise))) White in
      let score := rerun_score (ChessAI.depth_of Easy) isWhite
                     (current (new_game pawn_en_prise)) in
      exists before m after,
        legal_moves (current (new_game pawn_en_prise)) = before ++ m :: after /\
        ChessAI.getBestMove keep_order Easy (new_game pawn_en_prise)
        = Some (Some m, new_game pawn_en_prise) /\
        if isWhite
        then (forall m', In m' before -> score m' < score m) /\
             (forall m', In m' after -> score m' <= score m)
        else (forall m', In m' before -> score m < score m') /\
             (forall m', In m' after -> score m <= score m')).
Proof.
  split; [discriminate |]. split; [discriminate |].
  apply (chessai_returns_first_best Script script_engine keep_order Easy
           (new_game pawn_en_prise)); discriminate.
Defined.

(** The fold is the greatest, or least, of the initial value and the
    elements of the list. *)
Lemma fold_max_char (l : list Z) (init : Z) :
  init <= fold_left Z.max l init /\
  (forall y, In y l -> y <= fold_left Z.max l init) /\
  (fold_left Z.max l init = init \/ In (fold_left Z.max l init) l).
Proof.
  revert init. induction l as [| a l IH]; intros init; simpl.
  - split; [lia |]. split; [intros y [] | now left].
  - destruct (IH (Z.max init a)) as (Hge & Hall & Hin).
    split; [lia |]. split.
    + intros y [<- | Hy]; [lia | now apply Hall].
    + destruct Hin as [Heq | Hin]; [| right; now right].
      rewrite Heq. destruct (Z.max_spec init a) as [[_ ->] | [_ ->]]; auto.
Qed.

Lemma fold_min_char (l : list Z) (init : Z) :
  fold_left Z.min l init <= init /\
  (forall y, In y l -> fold_left Z.min l init <= y) /\
  (fold_left Z.min l init = init \/ In (fold_left Z.min l init) l).
Proof.
  revert init. induction l as [| a l IH]; intros init; simpl.
  - split; [lia |]. split; [intros y [] | now left].
  - destruct (IH (Z.min init a)) as (Hge & Hall & Hin).
    split; [lia |]. split.
    + intros y [<- | Hy]; [lia | now apply Hall].
    + destruct Hin as [Heq | Hin]; [| right; now right].
      rewrite Heq. destruct (Z.min_spec init a) as [[_ ->] | [_ ->]]; auto.
Qed.

Lemma fold_max_attained (l : list Z) (x init : Z) :
  In x l -> (forall y, In y l -> y <= x) -> init <= x -> fold_left Z.max l init = x.
Proof.
  intros Hin Hall Hinit.
  destruct (fold_max_char l init) as (_ & Hge & [Heq | Hmem]).
  - specialize (Hge x Hin). lia.
  - specialize (Hge x Hin). specialize (Hall _ Hmem). lia.
Qed.

Lemma fold_min_attained (l : list Z) (x init : Z) :
  In x l -> (forall y, In y l -> x <= y) -> x <= init -> fold_left Z.min l init = x.
Proof.
  intros Hin Hall Hinit.
  destruct (fold_min_char l init) as (_ & Hge & [Heq | Hmem]).
  - specialize (Hge x Hin). lia.
  - specialize (Hge x Hin). specialize (Hall _ Hmem). lia.
Qed.

(** The score of a candidate is what [minimax] returns after it is played. *)
Lemma rerun_score_is_minimax {Position : Type} `{RulesEngine Position}
  (depth : nat) (isWhite : bool) (g : Chess Position) (m : Move) :
  ChessAI.minimax (depth - 1) NegInf PosInf (negb isWhite)
    (mkChess (apply_move (current g) m) (current g :: history g))
  = Some (rerun_score depth isWhite (current g) m,
          mkChess (apply_move (current g) m) (current g :: history g)).
Proof.
  rewrite chessai_minimax_run. reflexivity.
Qed.

(** The value of a position that is not over is the best of its children's
    values. *)
Lemma chessai_root_value {Position : Type} `{RulesEngine Position}
  (d : nat) (isWhite : bool) (p : Position) (m : Move) :
  is_game_over p = false ->
  In m (legal_moves p) ->
  (forall m', In m' (legal_moves p) ->
     if isWhite
     then rerun_score (S d) isWhite p m' <= rerun_score (S d) isWhite p m
     else rerun_score (S d) isWhite p m <= rerun_score (S d) isWhite p m') ->
  chessai_search (S d) NegInf PosInf isWhite p = rerun_score (S d) isWhite p m.
Proof.
  intros Hover Hin Hbest.
  unfold rerun_score, chessai_search in *.
  rewrite search_full_window. simpl unpruned. rewrite Hover.
  replace (S d - 1)%nat with d in * by lia.
  assert (Hscore : forall m',
             search chessai_leaf (-99999) 99999 false d NegInf PosInf (negb isWhite)
               (apply_move p m')
             = unpruned chessai_leaf (-99999) 99999 d (negb isWhite) (apply_move p m'))
    by (intros m'; apply search_full_window).
  rewrite Hscore.
  pose proof (chessai_unpruned_within d (negb isWhite) (apply_move p m)) as Hrange.
  destruct isWhite.
  - apply fold_max_attained; [| | lia].
    + apply in_map_iff. exists m. split; [reflexivity | exact Hin].
    + intros y Hy. apply in_map_iff in Hy. destruct Hy as (m' & <- & Hin').
      specialize (Hbest m' Hin'). rewrite !Hscore in Hbest. exact Hbest.
  - apply fold_min_attained; [| | lia].
    + apply in_map_iff. exists m. split; [reflexivity | exact Hin].
    + intros y Hy. apply in_map_iff in Hy. destruct Hy as (m' & <- & Hin').
      specialize (Hbest m' Hin'). rewrite !Hscore in Hbest. exact Hbest.
Qed.

(** X4. On a position that is not over, the move [ChessAI.getBestMove]
    returns at a searching tier attains the minimax value of the position:
    what [minimax] returns after that move, at the tier's depth less one, is
    what [minimax] returns on the position itself at the tier's depth with
    the side to move maximizing exactly when it is White. *)
Theorem chessai_best_move_attains_minimax :
  forall (Position : Type) (E : RulesEngine Position) (rnd : Random)
         (difficulty : Difficulty) (g : Chess Position),
    difficulty <> Beginner ->
    is_game_over (current g) = false ->
    legal_moves (current g) <> [] ->
    let isWhite := color_eqb (turn_of (current g)) White in
    let depth := ChessAI.depth_of difficulty in
    exists m s,
      ChessAI.getBestMove rnd difficulty g = Some (Some m, g) /\
      ChessAI.minimax (depth - 1) NegInf PosInf (negb isWhite)
        (mkChess (apply_move (current g) m) (current g :: history g))
      = Some (s, mkChess (apply_move (current g) m) (current g :: history g)) /\
      ChessAI.minimax depth NegInf PosInf isWhite g = Some (s, g).
Proof.
  intros Position E rnd difficulty g Hsearching Hover Hmoves isWhite depth.
  destruct (chessai_getBestMove_first_best Position E rnd difficulty g Hsearching Hmoves)
    as (before & m & after & Hsplit & Hrun & Hbest).
  fold isWhite depth in Hbest.
  exists m, (rerun_score depth isWhite (current g) m).
  split; [exact Hrun |]. split; [apply rerun_score_is_minimax |].
  rewrite chessai_minimax_run. f_equal. f_equal.
  assert (Hin : In m (legal_moves (current g))).
  { rewrite Hsplit. apply in_or_app. right. now left. }
  assert (Hall : forall m', In m' (legal_moves (current g)) ->
                   if isWhite
                   then rerun_score depth isWhite (current g) m'
                        <= rerun_score depth isWhite (current g) m
                   else rerun_score depth isWhite (current g) m
                        <= rerun_score depth isWhite (current g) m').
  { intros m' Hin'. rewrite Hsplit in Hin'. apply in_app_or in Hin'.
    destruct isWhite; destruct Hbest as (Hb & Ha);
      destruct Hin' as [Hin' | [<- | Hin']];
      try lia; try (specialize (Hb _ Hin'); lia); try (specialize (Ha _ Hin'); lia). }
  assert (Hdepth : exists d, depth = S d).
  { unfold depth. destruct difficulty; simpl; eauto. }
  destruct Hdepth as (d & Hd). rewrite Hd in *.
  now apply chessai_root_value.
Qed.

(** X4 on [queen_en_prise] at [Easy]. *)
Lemma chessai_best_move_attains_minimax_witness :
  Easy <> Beginner
  /\ is_game_over (current (new_game queen_en_prise)) = false
  /\ legal_moves (current (new_game queen_en_prise)) <> []
  /\ (let isWhite := color_eqb (turn_of (current (new_game queen_en_prise))) White in
      let depth := ChessAI.depth_of Easy in
      exists m s,
        ChessAI.getBestMove keep_order Easy (new_game queen_en_prise)
        = Some (Some m, new_game queen_en_prise) /\
        ChessAI.minimax (depth - 1) NegInf PosInf (negb isWhite)
          (mkChess (apply_move (current (new_game queen_en_prise)) m)
             (current (new_game queen_en_prise) :: history (new_game queen_en_prise)))
        = Some (s, mkChess (apply_move (current (new_game queen_en_prise)) m)
                     (current (new_game queen_en_prise)
                        :: history (new_game queen_en_prise))) /\
        ChessAI.minimax depth NegInf PosInf isWhite (new_game queen_en_prise)
        = Some (s, new_game queen_en_prise)).
Proof.
  split; [discriminate |]. split; [reflexivity |]. split; [discriminate |].
  apply (chessai_best_move_attains_minimax Script script_engine keep_order Easy
           (new_game queen_en_prise)); [discriminate | reflexivity | discriminate].
Defined.


(** X5. At a searching tier [Ai.getBestMove] returns the first move, in the
    order the shuffle left the candidates in, that attains the best score
    (lowest for Black, highest for White): every earlier candidate scores
    strictly worse and no later one scores better. For this the turn must
    pass to the other side after each candidate, no candidate may be the
    empty string, and for White every score must exceed the initial
    [bestValue] of -9999. *)
Theorem ai_returns_first_best_of_shuffle :
  forall (Position : Type) (E : RulesEngine Position) (rnd : Random)
         (difficulty : Difficulty) (g : Chess Position),
    difficulty <> Beginner ->
    legal_moves (current g) <> [] ->
    ~ In EmptyString (legal_moves (current g)) ->
    (forall m, In m (legal_moves (current g)) ->
       turn_of (apply_move (current g) m) = opposite (turn_of (current g))) ->
    (turn_of (current g) = White ->
     forall m, In m (legal_moves (current g)) ->
       -9999 < ai_score (Ai.depth_of difficulty) (current g) m) ->
    let score := ai_score (Ai.depth_of difficulty) (current g) in
    exists before m after,
      shuffle rnd (legal_moves (current g)) = before ++ m :: after /\
      Ai.getBestMove rnd difficulty g = Some (Some m, g) /\
      match turn_of (current g) with
      | White => (forall m', In m' before -> score m' < score m) /\
                 (forall m', In m' after -> score m' <= score m)
      | Black => (forall m', In m' before -> score m < score m') /\
                 (forall m', In m' after -> score m <= score m')
      end.
Proof.
  intros Position E rnd difficulty g Hsearching Hmoves Hnonempty Hturn Habove.
  exact (ai_getBestMove_first_best Position E rnd difficulty g
           Hsearching Hmoves Hnonempty Hturn Habove).
Qed.

(** X5 on [pawn_en_prise] at [Easy], with the moves reversed by the shuffle. *)
Lemma ai_returns_first_best_of_shuffle_witness :
  Easy <> Beginner
  /\ legal_moves (current (new_game pawn_en_prise)) <> []
  /\ ~ In EmptyString (legal_moves (current (new_game pawn_en_prise)))
  /\ (forall m, In m (legal_moves (current (new_game pawn_en_prise))) ->
        turn_of (apply_move (current (new_game pawn_en_prise)) m)
        = opposite (turn_of (current (new_game pawn_en_prise))))
  /\ (turn_of (current (new_game pawn_en_prise)) = White ->
      forall m, In m (legal_moves (current (new_game pawn_en_prise))) ->
        -9999 < ai_score (Ai.depth_of Easy) (current (new_game pawn_en_prise)) m)
  /\ (let score := ai_score (Ai.depth_of Easy) (current (new_game pawn_en_prise)) in
      exists before m after,
        shuffle reverse_order (legal_moves (current (new_game pawn_en_prise)))
        = before ++ m :: after /\
        Ai.getBestMove reverse_order Easy (new_game pawn_en_prise)
        = Some (Some m, new_game pawn_en_prise) /\
        match turn_of (current (new_game pawn_en_prise)) with
        | White => (forall m', In m' before -> score m' < score m) /\
                   (forall m', In m' after -> score m' <= score m)
        | Black => (forall m', In m' before -> score m < score m') /\
                   (forall m', In m' after -> score m <= score m')
        end).
Proof.
  assert (Hnonempty : ~ In EmptyString (legal_moves (current (new_game pawn_en_prise)))).
  { simpl. intros Hin.
    repeat destruct Hin as [Hin | Hin]; try discriminate Hin; exact Hin. }
  assert (Hturn : forall m, In m (legal_moves (current (new_game pawn_en_prise))) ->
                    turn_of (apply_move (current (new_game pawn_en_prise)) m)
                    = opposite (turn_of (current (new_game pawn_en_prise)))).
  { simpl. intros m Hin.
    repeat destruct Hin as [<- | Hin]; try reflexivity; destruct Hin. }
  split; [discriminate |]. split; [discriminate |].
  split; [exact Hnonempty |]. split; [exact Hturn |].
  split; [discriminate |].
  apply (ai_returns_first_best_of_shuffle Script script_engine reverse_order Easy
           (new_game pawn_en_prise));
    [discriminate | discriminate | exact Hnonempty | exact Hturn | discriminate].
Defined.

(** ** The random tier *)

(** X6. At [Beginner] every legal move can be returned: for each one there
    is a value of [Math.random()] for which both engines return it. *)
Theorem beginner_reaches_every_move :
  forall (Position : Type) (E : RulesEngine Position) (g : Chess Position) (m : Move),
    In m (legal_moves (current g)) ->
    exists rnd,
      Ai.getBestMove rnd Beginner g = Some (Some m, g) /\
      ChessAI.getBestMove rnd Beginner g = Some (Some m, g).
Proof.
  intros Position E g m Hin.
  destruct (In_nth_error _ _ Hin) as (k & Hk).
  assert (Hlt : (k < List.length (legal_moves (current g)))%nat).
  { apply nth_error_Some. rewrite Hk. discriminate. }
  exists (pick_index k).
  unfold Ai.getBestMove, ChessAI.getBestMove. rewrite !bind_game_moves.
  destruct (legal_moves (current g)) as [| m0 rest] eqn:Hmoves; [destruct Hin |].
  unfold ret. cbn [pick_index random_index].
  apply Nat.ltb_lt in Hlt. rewrite Hlt, Hk. split; reflexivity.
Qed.

(** X6 for the capture in [queen_en_prise]. *)
Lemma beginner_reaches_every_move_witness :
  In "hxg6"%string (legal_moves (current (new_game queen_en_prise)))
  /\ exists rnd,
       Ai.getBestMove rnd Beginner (new_game queen_en_prise)
       = Some (Some "hxg6"%string, new_game queen_en_prise) /\
       ChessAI.getBestMove rnd Beginner (new_game queen_en_prise)
       = Some (Some "hxg6"%string, new_game queen_en_prise).
Proof.
  assert (Hin : In "hxg6"%string (legal_moves (current (new_game queen_en_prise))))
    by (simpl; auto).
  split; [exact Hin |].
  exact (beginner_reaches_every_move Script script_engine (new_game queen_en_prise)
           "hxg6"%string Hin).
Defined.

(** ** Symmetries and bounds of the evaluators *)

(** X7. A board that is its own color-mirror image, as the starting position
    is, is scored 0 by both evaluators. *)
Theorem self_mirrored_board_scores_zero :
  forall board : Board,
    List.length board = 8%nat ->
    mirror_board board = board ->
    ChessAI.evaluate board = 0 /\ Ai.evaluate board = 0.
Proof.
  intros board Hlen Hself.
  pose proof (chessai_evaluate_mirror board Hlen) as Hc.
  pose proof (ai_evaluate_mirror board Hlen) as Ha.
  rewrite Hself in Hc, Ha. split; lia.
Qed.

(** X7 on the starting position. *)
Lemma self_mirrored_board_scores_zero_witness :
  List.length starting_board = 8%nat
  /\ mirror_board starting_board = starting_board
  /\ ChessAI.evaluate starting_board = 0 /\ Ai.evaluate starting_board = 0.
Proof.
  split; [reflexivity |]. split; [reflexivity |].
  apply (self_mirrored_board_scores_zero starting_board); reflexivity.
Defined.

Lemma nth_nil_any {A : Type} (n : nat) (d : A) : nth n [] d = d.
Proof. destruct n; reflexivity. Qed.

Lemma square_reflect (board : Board) (i j : nat) :
  Forall (fun row => List.length row = 8%nat) board -> (j < 8)%nat ->
  square (reflect_board board) i j = square board i (7 - j).
Proof.
  intros Hrows Hj. unfold square, reflect_board.
  change (@nil (option Piece)) with (rev (@nil (option Piece))) at 1.
  rewrite map_nth.
  destruct (Nat.lt_ge_cases i (List.length board)) as [Hi | Hi].
  - assert (Hrow : List.length (nth i board []) = 8%nat).
    { rewrite Forall_forall in Hrows. apply Hrows. now apply nth_In. }
    rewrite rev_nth by lia. rewrite Hrow. f_equal; lia.
  - rewrite (nth_overflow board [] Hi). cbn [rev]. now rewrite !nth_nil_any.
Qed.

(** Every row of both piece-square tables reads the same in both directions. *)
Lemma table_rows_are_palindromes (c : Color) (i j : nat) :
  (i < 8)%nat -> (j < 8)%nat ->
  nth (table_index c i j) ChessAI.PST_p 0 = nth (table_index c i (7 - j)) ChessAI.PST_p 0 /\
  nth (table_index c i j) ChessAI.PST_n 0 = nth (table_index c i (7 - j)) ChessAI.PST_n 0.
Proof.
  intros Hi Hj.
  assert (Hi' : (i = 0 \/ i = 1 \/ i = 2 \/ i = 3 \/ i = 4 \/ i = 5 \/ i = 6 \/ i = 7)%nat)
    by lia.
  assert (Hj' : (j = 0 \/ j = 1 \/ j = 2 \/ j = 3 \/ j = 4 \/ j = 5 \/ j = 6 \/ j = 7)%nat)
    by lia.
  clear Hi Hj.
  repeat (destruct Hi' as [Hi' | Hi']); subst i;
    repeat (destruct Hj' as [Hj' | Hj']); subst j;
    destruct c; split; reflexivity.
Qed.

Lemma chessai_term_reflect (board : Board) (i j : nat) :
  Forall (fun row => List.length row = 8%nat) board -> (i < 8)%nat -> (j < 8)%nat ->
  chessai_term (reflect_board board) i j = chessai_term board i (7 - j).
Proof.
  intros Hrows Hi Hj. unfold chessai_term. rewrite square_reflect by assumption.
  destruct (square board i (7 - j)) as [[t c] |]; [| reflexivity].
  unfold bonus. cbn [ptype pcolor].
  destruct (table_rows_are_palindromes c i j Hi Hj) as (Hp & Hn).
  rewrite Hp, Hn. reflexivity.
Qed.

Lemma ai_term_reflect (board : Board) (i j : nat) :
  Forall (fun row => List.length row = 8%nat) board -> (j < 8)%nat ->
  ai_term (reflect_board board) i j = ai_term board i (7 - j).
Proof.
  intros Hrows Hj. unfold ai_term. now rewrite square_reflect by assumption.
Qed.

Lemma grid_sum_reflect (t1 t2 : nat -> nat -> Z) :
  (forall i j, (i < 8)%nat -> (j < 8)%nat -> t2 i j = t1 i (7 - j)%nat) ->
  grid_sum t2 = grid_sum t1.
Proof.
  intros Hreflect. unfold grid_sum. simpl.
  rewrite !Hreflect by lia. simpl Nat.sub. lia.
Qed.

(** X8. Reflecting a board left to right (file a for file h) changes neither
    evaluator's score: the material counts are the same and every row of the
    pawn and knight tables is symmetric. *)
Theorem evaluate_reflection_invariant :
  forall board : Board,
    Forall (fun row => List.length row = 8%nat) board ->
    ChessAI.evaluate (reflect_board board) = ChessAI.evaluate board /\
    Ai.evaluate (reflect_board board) = Ai.evaluate board.
Proof.
  intros board Hrows. rewrite !chessai_evaluate_grid, !ai_evaluate_grid. split.
  - apply grid_sum_reflect. intros i j Hi Hj. now apply chessai_term_reflect.
  - apply grid_sum_reflect. intros i j Hi Hj. now apply ai_term_reflect.
Qed.

(** X8 on the board of [queen_en_prise]. *)
Lemma evaluate_reflection_invariant_witness :
  Forall (fun row => List.length row = 8%nat) (board_of queen_en_prise)
  /\ ChessAI.evaluate (reflect_board (board_of queen_en_prise))
     = ChessAI.evaluate (board_of queen_en_prise)
  /\ Ai.evaluate (reflect_board (board_of queen_en_prise))
     = Ai.evaluate (board_of queen_en_prise).
Proof.
  assert (Hrows : Forall (fun row => List.length row = 8%nat) (board_of queen_en_prise))
    by (repeat constructor).
  split; [exact Hrows |].
  exact (evaluate_reflection_invariant (board_of queen_en_prise) Hrows).
Defined.

(** X9. Whatever the board, [evaluateBoard] returns a score between -57600
    and 57600 (64 squares of at most a king each) in both engines, so in
    [ChessAI] no score reaches the initial [bestEval] of 99999. *)
Theorem evaluateBoard_is_bounded :
  forall (Position : Type) (E : RulesEngine Position) (g : Chess Position),
    (exists v, ChessAI.evaluateBoard g = Some (v, g) /\ -57600 <= v <= 57600) /\
    (exists v, Ai.evaluateBoard g = Some (v, g) /\ -57600 <= v <= 57600).
Proof.
  intros Position E g. split.
  - exists (ChessAI.evaluate (board_of (current g))).
    split; [reflexivity | apply chessai_evaluate_bounds].
  - exists (Ai.evaluate (board_of (current g))).
    split; [reflexivity | apply ai_evaluate_bounds].
Qed.

(** ** The finite window of [Ai.getBestMove] *)

Lemma unpruned_within_depth {Position : Type} `{RulesEngine Position}
  (leaf : Position -> Z) (lo hi : Z) (depth : nat) :
  lo <= hi ->
  forall (mx : bool) (p : Position),
    leaves_within leaf lo hi depth p = true ->
    lo <= unpruned leaf lo hi depth mx p <= hi.
Proof.
  intros Hle. induction depth as [| d IH]; intros mx p Hin; simpl in *.
  - apply andb_prop in Hin. destruct Hin as (Hlo & Hhi).
    apply Z.leb_le in Hlo, Hhi. lia.
  - destruct (is_game_over p).
    + apply andb_prop in Hin. destruct Hin as (Hlo & Hhi).
      apply Z.leb_le in Hlo, Hhi. lia.
    + rewrite forallb_forall in Hin.
      assert (Hall : Forall (fun v => lo <= v <= hi)
                       (map (fun m => unpruned leaf lo hi d (negb mx) (apply_move p m))
                            (legal_moves p))).
      { apply Forall_forall. intros v Hv. apply in_map_iff in Hv.
        destruct Hv as (m & <- & Hm). apply IH. now apply Hin. }
      destruct mx;
        [apply fold_max_within | apply fold_min_within]; try assumption; lia.
Qed.

(** X10. When every terminal score that can be read within [depth] plies of
    the position lies between -9999 and 9999, [Ai.minimax] called with the
    window (-10000, 10000), as [getBestMove] calls it, returns what it
    returns with the window (-Infinity, +Infinity). *)
Theorem ai_finite_window_is_full :
  forall (Position : Type) (E : RulesEngine Position) (depth : nat) (mx : bool)
         (g : Chess Position),
    leaves_within ai_leaf (-9999) 9999 depth (current g) = true ->
    Ai.minimax depth (Fin (-10000)) (Fin 10000) mx g
    = Ai.minimax depth NegInf PosInf mx g.
Proof.
  intros Position E depth mx g Hleaves.
  rewrite !ai_minimax_run. unfold ai_search.
  rewrite search_full_window. f_equal. f_equal.
  pose proof (unpruned_within_depth ai_leaf (-9999) 9999 depth ltac:(lia) mx (current g)
                Hleaves) as Hin.
  eapply agree_inside;
    [| | exact (search_agree ai_leaf (-9999) 9999 true depth
                  (Fin (-10000)) (Fin 10000) mx (current g) ltac:(simpl; lia))];
    simpl; lia.
Qed.

(** X10 on [pawn_en_prise], two plies deep. *)
Lemma ai_finite_window_is_full_witness :
  leaves_within ai_leaf (-9999) 9999 2 (current (new_game pawn_en_prise)) = true
  /\ Ai.minimax 2 (Fin (-10000)) (Fin 10000) false (new_game pawn_en_prise)
     = Ai.minimax 2 NegInf PosInf false (new_game pawn_en_prise).
Proof.
  split; [vm_compute; reflexivity |].
  apply (ai_finite_window_is_full Script script_engine 2%nat false (new_game pawn_en_prise)).
  vm_compute. reflexivity.
Defined.

(** ** The callers *)

(** X11. In [ChessBoardGame], in the mode against the computer, when Black is
    to move and the game is not over, the "AI Move Effect" plays the move
    [getBestMove] returns: the move is legal, the state holds a fresh copy on
    the position after it, with the position before it as its only history,
    and nothing is sent to the database. The rules engine must report a
    position without moves as game-over and list no empty move. *)
Theorem chessboardgame_ai_replies :
  forall (Position : Type) (E : RulesEngine Position) (difficulty : Difficulty)
         (roomId : option string) (rnd : Random) (st : ChessBoardGame.State),
    (forall p : Position, legal_moves p = [] -> is_game_over p = true) ->
    let p := current (ChessBoardGame.game st) in
    ~ In EmptyString (legal_moves p) ->
    turn_of p = Black ->
    is_game_over p = false ->
    exists m,
      In m (legal_moves p) /\
      ChessAI.getBestMove rnd difficulty (ChessBoardGame.game st)
      = Some (Some m, ChessBoardGame.game st) /\
      ChessBoardGame.aiMoveEffect ChessBoardGame.ai difficulty roomId rnd st
      = Some (ChessBoardGame.mkState (mkChess (apply_move p m) [p]) (apply_move p m), []).
Proof.
  intros Position E difficulty roomId rnd st Hrules p. subst p.
  intros Hnonempty Hturn Hover.
  destruct (chessai_getBestMove_run rnd difficulty (ChessBoardGame.game st))
    as (r & Hrun & _ & Hsome).
  destruct Hsome as (m & -> & Hin).
  { intros Hnone. rewrite (Hrules _ Hnone) in Hover. discriminate. }
  exists m. split; [exact Hin |]. split; [exact Hrun |].
  unfold ChessBoardGame.aiMoveEffect.
  rewrite Hturn, Hover, Hrun. cbn [ChessBoardGame.is_ai color_eqb negb andb].
  assert (Htruthy : truthy (Some m) = true).
  { unfold truthy. destruct (string_dec m EmptyString) as [-> | _]; [| reflexivity].
    now contradiction Hnonempty. }
  rewrite Htruthy. unfold ChessBoardGame.makeMove. cbn [ChessBoardGame.game].
  rewrite game_move_legal by exact Hin. reflexivity.
Qed.

(** X11 on [queen_en_prise] at [Easy]. *)
Lemma chessboardgame_ai_replies_witness :
  (forall p : Script, legal_moves p = [] -> is_game_over p = true)
  /\ ~ In EmptyString (legal_moves queen_en_prise)
  /\ turn_of queen_en_prise = Black
  /\ is_game_over queen_en_prise = false
  /\ exists m,
       In m (legal_moves queen_en_prise) /\
       ChessAI.getBestMove keep_order Easy (new_game queen_en_prise)
       = Some (Some m, new_game queen_en_prise) /\
       ChessBoardGame.aiMoveEffect ChessBoardGame.ai Easy None keep_order
         (ChessBoardGame.mkState (new_game queen_en_prise) queen_en_prise)
       = Some (ChessBoardGame.mkState
                 (mkChess (apply_move queen_en_prise m) [queen_en_prise])
                 (apply_move queen_en_prise m), []).
Proof.
  assert (Hnonempty : ~ In EmptyString (legal_moves queen_en_prise)).
  { simpl. intros Hin.
    repeat destruct Hin as [Hin | Hin]; try discriminate Hin; exact Hin. }
  split; [exact script_game_over_without_moves |].
  split; [exact Hnonempty |]. split; [reflexivity |]. split; [reflexivity |].
  exact (chessboardgame_ai_replies Script script_engine Easy None keep_order
           (ChessBoardGame.mkState (new_game queen_en_prise) queen_en_prise)
           script_game_over_without_moves Hnonempty eq_refl eq_refl).
Defined.

(** X12. In [GameRoom], on the route against the computer, when Black is to
    move and the game is not over, the "AI Logic" effect plays the move
    [getBestMove] returns on a copy of the game: the move is legal, the state
    holds a fresh copy on the position after it, the status is what
    [checkGameOver] makes of that position, and the copy is sent to the
    database exactly when there is a [gameId]. Same conditions on the rules
    engine as for X11. *)
Theorem gameroom_ai_replies :
  forall (Position : Type) (E : RulesEngine Position) (Q : StatusQueries Position)
         (gameId : option string) (aiDifficulty : Difficulty) (rnd : Random)
         (st : GameRoom.State),
    (forall p : Position, legal_moves p = [] -> is_game_over p = true) ->
    let p := current (GameRoom.game st) in
    ~ In EmptyString (legal_moves p) ->
    turn_of p = Black ->
    is_game_over p = false ->
    exists m,
      In m (legal_moves p) /\
      Ai.getBestMove rnd aiDifficulty (mkChess p []) = Some (Some m, mkChess p []) /\
      let played := mkChess (apply_move p m) [p] in
      GameRoom.aiLogicEffect (Some "ai"%string) gameId aiDifficulty rnd st
      = Some (GameRoom.mkState played (GameRoom.checkGameOver played (GameRoom.status st)),
              if truthy gameId then [played] else []).
Proof.
  intros Position E Q gameId aiDifficulty rnd st Hrules p. subst p.
  intros Hnonempty Hturn Hover.
  destruct (ai_getBestMove_run rnd aiDifficulty
              (mkChess (current (GameRoom.game st)) []))
    as (r & Hrun & _ & Hsome).
  destruct Hsome as (m & -> & Hin).
  { cbn [current]. intros Hnone. rewrite (Hrules _ Hnone) in Hover. discriminate. }
  cbn [current] in Hin.
  exists m. split; [exact Hin |]. split; [exact Hrun |].
  unfold GameRoom.aiLogicEffect.
  rewrite Hturn, Hover, Hrun.
  destruct (string_dec "ai" "ai") as [_ | Hne]; [| now contradiction Hne].
  cbn [color_eqb negb andb].
  assert (Htruthy : truthy (Some m) = true).
  { unfold truthy. destruct (string_dec m EmptyString) as [-> | _]; [| reflexivity].
    now contradiction Hnonempty. }
  rewrite Htruthy. unfold GameRoom.safeMove.
  rewrite game_move_legal by exact Hin. reflexivity.
Qed.

(** X12 on [pawn_en_prise] at [Easy], without a [gameId]. *)
Lemma gameroom_ai_replies_witness :
  (forall p : Script, legal_moves p = [] -> is_game_over p = true)
  /\ ~ In EmptyString (legal_moves pawn_en_prise)
  /\ turn_of pawn_en_prise = Black
  /\ is_game_over pawn_en_prise = false
  /\ exists m,
       In m (legal_moves pawn_en_prise) /\
       Ai.getBestMove keep_order Easy (mkChess pawn_en_prise [])
       = Some (Some m, mkChess pawn_en_prise []) /\
       let played := mkChess (apply_move pawn_en_prise m) [pawn_en_prise] in
       GameRoom.aiLogicEffect (Some "ai"%string) None Easy keep_order
         (GameRoom.mkState (new_game pawn_en_prise) "active"%string)
       = Some (GameRoom.mkState played (GameRoom.checkGameOver played "active"%string),
               if truthy None then [played] else []).
Proof.
  assert (Hnonempty : ~ In EmptyString (legal_moves pawn_en_prise)).
  { simpl. intros Hin.
    repeat destruct Hin as [Hin | Hin]; try discriminate Hin; exact Hin. }
  split; [exact script_game_over_without_moves |].
  split; [exact Hnonempty |]. split; [reflexivity |]. split; [reflexivity |].
  exact (gameroom_ai_replies Script script_engine script_status None Easy keep_order
           (GameRoom.mkState (new_game pawn_en_prise) "active"%string)
           script_game_over_without_moves Hnonempty eq_refl eq_refl).
Defined.

(** X13. A click on the board keeps its state consistent with the position
    shown: no move is listed without a selection, and a selected square holds
    a piece of the side to move together with the moves the rules engine
    lists for it. When the click calls [onMove(from, to)], the board is
    interactive, [from] is the selected square and [to] is the destination of
    one of those moves. *)
Theorem board_click_keeps_selection_consistent :
  forall (Position : Type) (E : RulesEngine Position) (Q : BoardQueries Position)
         (interactive : bool) (game : Chess Position) (square : string)
         (st : BoardView.State),
    BoardView.consistent (current game) st ->
    BoardView.consistent (current game)
      (fst (BoardView.handleSquareClick interactive game square st)) /\
    forall from to,
      snd (BoardView.handleSquareClick interactive game square st) = Some (from, to) ->
      interactive = true /\
      BoardView.selectedSquare st = Some from /\
      to = square /\
      exists m, In m (moves_from (current game) from) /\ move_to m = to.
Proof.
  intros Position E Q interactive game square st Hinv.
  unfold BoardView.handleSquareClick.
  destruct interactive; cbn [negb]; [| split; [exact Hinv | discriminate]].
  destruct st as [selected moves]. cbn [BoardView.selectedSquare BoardView.possibleMoves].
  unfold BoardView.consistent in Hinv.
  cbn [BoardView.selectedSquare BoardView.possibleMoves] in Hinv.
  assert (Hcleared : BoardView.consistent (current game) BoardView.cleared)
    by reflexivity.
  assert (Hselect :
            BoardView.consistent (current game)
              (fst match piece_at (current game) square with
                   | Some piece =>
                       if color_eqb (pcolor piece) (turn_of (current game))
                       then (BoardView.mkState (Some square)
                               (moves_from (current game) square), None)
                       else (BoardView.cleared, @None (string * string))
                   | None => (BoardView.cleared, None)
                   end) /\
            forall from to,
              snd match piece_at (current game) square with
                  | Some piece =>
                      if color_eqb (pcolor piece) (turn_of (current game))
                      then (BoardView.mkState (Some square)
                              (moves_from (current game) square), None)
                      else (BoardView.cleared, @None (string * string))
                  | None => (BoardView.cleared, None)
                  end = Some (from, to) -> False).
  { destruct (piece_at (current game) square) as [piece |] eqn:Hpiece.
    - destruct (color_eqb (pcolor piece) (turn_of (current game))) eqn:Hcolor.
      + split; [| discriminate].
        unfold BoardView.consistent. cbn [fst BoardView.selectedSquare BoardView.possibleMoves].
        split; [reflexivity |]. exists piece. split; [exact Hpiece |].
        destruct (pcolor piece), (turn_of (current game)); try discriminate; reflexivity.
      + split; [exact Hcleared | discriminate].
    - split; [exact Hcleared | discriminate]. }
  destruct selected as [selected |].
  - destruct (string_dec selected square) as [-> | Hother].
    + split; [exact Hcleared | discriminate].
    + destruct Hinv as (Hmoves & _). subst moves.
      destruct (truthy (Some selected)).
      * destruct (find (fun m => String.eqb (move_to m) square)
                    (moves_from (current game) selected)) as [m |] eqn:Hfind.
        -- split; [exact Hcleared |].
           intros from to Hcall. cbn [snd] in Hcall. injection Hcall as <- <-.
           split; [reflexivity |]. split; [reflexivity |]. split; [reflexivity |].
           apply find_some in Hfind. destruct Hfind as (Hin & Heq).
           apply String.eqb_eq in Heq. exists m. split; assumption.
        -- destruct Hselect as (Hc & Hno). split; [exact Hc |].
           intros from to Hcall. exfalso. exact (Hno from to Hcall).
      * destruct Hselect as (Hc & Hno). split; [exact Hc |].
        intros from to Hcall. exfalso. exact (Hno from to Hcall).
  - cbn [truthy]. destruct Hselect as (Hc & Hno). split; [exact Hc |].
    intros from to Hcall. exfalso. exact (Hno from to Hcall).
Qed.

(** X13 on the root of [pawn_en_prise]: the black king on d5 is selected and
    the pawn's square d4 is clicked. *)
Lemma board_click_keeps_selection_consistent_witness :
  BoardView.consistent (current (new_game pawn_en_prise))
    (BoardView.mkState (Some "d5"%string) ["c6"; "d6"; "e6"; "e4"; "d4"; "c4"]%string)
  /\ BoardView.consistent (current (new_game pawn_en_prise))
       (fst (BoardView.handleSquareClick true (new_game pawn_en_prise) "d4"%string
               (BoardView.mkState (Some "d5"%string)
                  ["c6"; "d6"; "e6"; "e4"; "d4"; "c4"]%string)))
  /\ forall from to,
       snd (BoardView.handleSquareClick true (new_game pawn_en_prise) "d4"%string
              (BoardView.mkState (Some "d5"%string)
                 ["c6"; "d6"; "e6"; "e4"; "d4"; "c4"]%string)) = Some (from, to) ->
       true = true /\
       BoardView.selectedSquare
         (BoardView.mkState (Some "d5"%string) ["c6"; "d6"; "e6"; "e4"; "d4"; "c4"]%string)
       = Some from /\
       to = "d4"%string /\
       exists m, In m (moves_from (current (new_game pawn_en_prise)) from) /\ move_to m = to.
Proof.
  assert (Hinv : BoardView.consistent (current (new_game pawn_en_prise))
                   (BoardView.mkState (Some "d5"%string)
                      ["c6"; "d6"; "e6"; "e4"; "d4"; "c4"]%string)).
  { split; [reflexivity |]. exists bK. split; reflexivity. }
  split; [exact Hinv |].
  exact (board_click_keeps_selection_consistent Script script_engine pawn_en_prise_queries
           true (new_game pawn_en_prise) "d4"%string
           (BoardView.mkState (Some "d5"%string) ["c6"; "d6"; "e6"; "e4"; "d4"; "c4"]%string)
           Hinv).
Defined.

(** ** The calculator *)

Import Ascii.

Lemma substring_prefix_append (s t : string) :
  substring 0 (String.length s) (s ++ t) = s.
Proof.
  induction s as [| c s IH]; simpl.
  - destruct t; reflexivity.
  - now rewrite IH.
Qed.

Lemma length_append_one (s : string) (c : Ascii.ascii) :
  String.length (s ++ String c EmptyString) = S (String.length s).
Proof.
  induction s as [| c' s IH]; simpl; [reflexivity | now rewrite IH].
Qed.

Lemma count_dots_append (s t : string) :
  Calculator.count_dots (s ++ t)
  = (Calculator.count_dots s + Calculator.count_dots t)%nat.
Proof.
  induction s as [| c s IH]; simpl; [reflexivity | rewrite IH; lia].
Qed.

Lemma count_dots_substring (n : nat) (s : string) :
  (Calculator.count_dots (substring 0 n s) <= Calculator.count_dots s)%nat.
Proof.
  revert n. induction s as [| c s IH]; intros [| n]; simpl; try lia.
  specialize (IH n). lia.
Qed.

Lemma includes_dot_count (s : string) :
  Calculator.includes_dot s = false -> Calculator.count_dots s = 0%nat.
Proof.
  induction s as [| c s IH]; simpl; [reflexivity |].
  destruct (Ascii.ascii_dec c "."%char); [discriminate | exact IH].
Qed.

Lemma substring_nonempty (n : nat) (s : string) :
  (0 < n)%nat -> (n <= String.length s)%nat -> substring 0 n s <> EmptyString.
Proof.
  intros Hn Hle. destruct s as [| c s]; simpl in *; [lia |].
  destruct n; [lia | discriminate].
Qed.

(** X14. The calculator's history never holds more than ten entries,
    whatever is pressed and whatever the results are. *)
Theorem calculator_history_is_capped :
  forall (format : string -> string -> string -> string)
         (events : list Calculator.Event),
    (List.length (Calculator.history (Calculator.run format events)) <= 10)%nat.
Proof.
  intros format events. unfold Calculator.run.
  assert (Hinit : (List.length (Calculator.history Calculator.initial) <= 10)%nat)
    by (simpl; lia).
  revert Hinit. generalize Calculator.initial as st.
  induction events as [| e events IH]; intros st Hst; [exact Hst |].
  simpl fold_left. apply IH.
  assert (Hcalc : (List.length (Calculator.history (Calculator.calculate format st)) <= 10)%nat).
  { unfold Calculator.calculate.
    destruct (Calculator.previous st) as [prev |]; [| exact Hst].
    destruct (Calculator.operation st) as [op |]; [| exact Hst].
    destruct (truthy (Some prev) && truthy (Some op)); [| exact Hst].
    cbn [Calculator.history List.length].
    pose proof (firstn_le_length 9 (Calculator.history st)). lia. }
  destruct e; simpl; try exact Hst; try exact Hcalc.
  - unfold Calculator.handleNumber.
    repeat match goal with |- context [if ?c then _ else _] => destruct c end;
      exact Hst.
  - unfold Calculator.handleOperator.
    destruct (Calculator.previous st); [exact Hcalc | exact Hst].
  - unfold Calculator.deleteLast.
    destruct (Nat.eqb _ _); exact Hst.
  - lia.
Qed.

(** X15. When the formatted result of a calculation is never empty and
    holds at most one point, the display is never empty and never shows two
    points, whatever is pressed. *)
Theorem calculator_display_is_well_formed :
  forall (format : string -> string -> string -> string),
    (forall a o c, format a o c <> EmptyString /\
                   (Calculator.count_dots (format a o c) <= 1)%nat) ->
    forall events : list Calculator.Event,
      Calculator.current (Calculator.run format events) <> EmptyString /\
      (Calculator.count_dots (Calculator.current (Calculator.run format events)) <= 1)%nat.
Proof.
  intros format Hformat events. unfold Calculator.run.
  assert (Hinit : Calculator.current Calculator.initial <> EmptyString /\
                  (Calculator.count_dots (Calculator.current Calculator.initial) <= 1)%nat)
    by (split; [discriminate | simpl; lia]).
  revert Hinit. generalize Calculator.initial as st.
  induction events as [| e events IH]; intros st Hst; [exact Hst |].
  simpl fold_left. apply IH.
  assert (Hzero : "0"%string <> EmptyString /\ (Calculator.count_dots "0" <= 1)%nat)
    by (split; [discriminate | simpl; lia]).
  assert (Hcalc : Calculator.current (Calculator.calculate format st) <> EmptyString /\
                  (Calculator.count_dots
                     (Calculator.current (Calculator.calculate format st)) <= 1)%nat).
  { unfold Calculator.calculate.
    destruct (Calculator.previous st) as [prev |]; [| exact Hst].
    destruct (Calculator.operation st) as [op |]; [| exact Hst].
    destruct (truthy (Some prev) && truthy (Some op)); [| exact Hst].
    apply Hformat. }
  destruct Hst as (Hne & Hdots).
  destruct e; simpl; try (split; assumption); try exact Hcalc; try exact Hzero.
  - unfold Calculator.handleNumber.
    destruct (string_dec (Calculator.current st) "0") as [Hz | Hz];
      destruct (string_dec (String c EmptyString) ".") as [Hd | Hd]; cbn [andb].
    + destruct (Calculator.includes_dot (Calculator.current st)) eqn:Hinc;
        cbn [andb]; [split; assumption |].
      cbn [Calculator.current]. rewrite Hz. split; [discriminate |].
      rewrite Hd. simpl. lia.
    + cbn [Calculator.current]. split; [discriminate |].
      simpl. destruct (Ascii.ascii_dec c "."%char) as [-> | _]; [| lia].
      now contradiction Hd.
    + destruct (Calculator.includes_dot (Calculator.current st)) eqn:Hinc;
        cbn [andb]; [split; assumption |].
      cbn [Calculator.current]. split.
      * destruct (Calculator.current st); [now contradiction Hne | discriminate].
      * rewrite count_dots_append, (includes_dot_count _ Hinc), Hd. simpl. lia.
    + rewrite andb_false_r. cbn [Calculator.current]. split.
      * destruct (Calculator.current st); [now contradiction Hne | discriminate].
      * rewrite count_dots_append. simpl.
        destruct (Ascii.ascii_dec c "."%char) as [-> | _]; [now contradiction Hd | lia].
  - unfold Calculator.handleOperator.
    destruct (Calculator.previous st); [exact Hcalc | exact Hzero].
  - unfold Calculator.deleteLast.
    destruct (Nat.eqb (String.length (Calculator.current st)) 1) eqn:Hlen;
      [exact Hzero |].
    apply Nat.eqb_neq in Hlen. cbn [Calculator.current]. unfold Calculator.drop_last.
    split.
    + apply substring_nonempty; [| lia].
      destruct (Calculator.current st); [now contradiction Hne | simpl in *; lia].
    + pose proof (count_dots_substring (String.length (Calculator.current st) - 1)
                    (Calculator.current st)). lia.
Qed.

(** X15 with a result that always reads [0.5], after the keys [1 . 5 + 2 =]. *)
Lemma calculator_display_is_well_formed_witness :
  (forall a o c : string,
      (fun _ _ _ => "0.5"%string) a o c <> EmptyString /\
      (Calculator.count_dots ((fun _ _ _ => "0.5"%string) a o c) <= 1)%nat)
  /\ Calculator.current
       (Calculator.run (fun _ _ _ => "0.5"%string)
          [Calculator.PressNumber "1"%char; Calculator.PressNumber "."%char;
           Calculator.PressNumber "5"%char; Calculator.PressOperator "+"%string;
           Calculator.PressNumber "2"%char; Calculator.PressEquals]) <> EmptyString
  /\ (Calculator.count_dots
        (Calculator.current
           (Calculator.run (fun _ _ _ => "0.5"%string)
              [Calculator.PressNumber "1"%char; Calculator.PressNumber "."%char;
               Calculator.PressNumber "5"%char; Calculator.PressOperator "+"%string;
               Calculator.PressNumber "2"%char; Calculator.PressEquals])) <= 1)%nat.
Proof.
  assert (Hformat : forall a o c : string,
             (fun _ _ _ => "0.5"%string) a o c <> EmptyString /\
             (Calculator.count_dots ((fun _ _ _ => "0.5"%string) a o c) <= 1)%nat).
  { intros a o c. split; [discriminate | simpl; lia]. }
  split; [exact Hformat |].
  exact (calculator_display_is_well_formed (fun _ _ _ => "0.5"%string) Hformat
           [Calculator.PressNumber "1"%char; Calculator.PressNumber "."%char;
            Calculator.PressNumber "5"%char; Calculator.PressOperator "+"%string;
            Calculator.PressNumber "2"%char; Calculator.PressEquals]).
Defined.

(** X16. Backspace undoes a key of the number pad: pressing a character and
    then backspace gives back the state, provided the display was not empty
    and the key was not a point refused because the display already has
    one. *)
Theorem calculator_backspace_undoes_a_key :
  forall (st : Calculator.State) (c : Ascii.ascii),
    Calculator.current st <> EmptyString ->
    (String c EmptyString = "."%string ->
     Calculator.includes_dot (Calculator.current st) = false) ->
    Calculator.deleteLast (Calculator.handleNumber (String c EmptyString) st) = st.
Proof.
  intros [cur prev op hist shown] c Hne Hdot. cbn [Calculator.current] in *.
  unfold Calculator.handleNumber. cbn [Calculator.current Calculator.previous
    Calculator.operation Calculator.history Calculator.showHistory].
  assert (Happend :
            Calculator.deleteLast
              (Calculator.mkState (cur ++ String c EmptyString) prev op hist shown)
            = Calculator.mkState cur prev op hist shown).
  { unfold Calculator.deleteLast. cbn [Calculator.current Calculator.previous
      Calculator.operation Calculator.history Calculator.showHistory].
    rewrite length_append_one.
    destruct cur as [| c0 cur]; [now contradiction Hne |].
    cbn [String.length Nat.eqb]. unfold Calculator.drop_last.
    rewrite length_append_one. f_equal.
    replace (S (String.length (String c0 cur)) - 1)%nat
      with (String.length (String c0 cur)) by lia.
    apply substring_prefix_append. }
  destruct (string_dec cur "0") as [-> | Hz];
    destruct (string_dec (String c EmptyString) ".") as [Hd | Hd]; cbn [andb].
  - rewrite (Hdot Hd). cbn [andb]. exact Happend.
  - reflexivity.
  - rewrite (Hdot Hd). cbn [andb]. exact Happend.
  - rewrite andb_false_r. exact Happend.
Qed.

(** X16 for the key [5] on the display [12]. *)
Lemma calculator_backspace_undoes_a_key_witness :
  Calculator.current (Calculator.mkState "12" None None [] false) <> EmptyString
  /\ (String "5"%char EmptyString = "."%string ->
      Calculator.includes_dot
        (Calculator.current (Calculator.mkState "12" None None [] false)) = false)
  /\ Calculator.deleteLast
       (Calculator.handleNumber (String "5"%char EmptyString)
          (Calculator.mkState "12" None None [] false))
     = Calculator.mkState "12" None None [] false.
Proof.
  split; [discriminate |]. split; [reflexivity |].
  apply (calculator_backspace_undoes_a_key (Calculator.mkState "12" None None [] false)
           "5"%char); [discriminate | reflexivity].
Defined.
